(** * yapsap: unification, positive factoring and binary paramodulation

    A shallow embedding of [yapsap/unification.py], [yapsap/factoring.py]
    and [yapsap/paramodulation.py], together with the parts of the term
    grammar, of [yapsap/substitution.py] and of [yapsap/utils.py] that these
    three modules call. *)

From Stdlib Require Import String DecimalString ZArith Bool Arith Lia List.
Import ListNotations.
#[local] Set Warnings "-register-all".
Local Open Scope Z_scope.

(** ** The term grammar *)

(** [Variable], [Function] and [Predicate] of the grammar, as one tagged
    type: [Proposition] is the union of the three, and the code inspects the
    tag with [isinstance]. Indices are Python integers. *)
Inductive Proposition : Type :=
| MkVariable (index : Z)
| MkFunction (index : Z) (arguments : list Proposition)
| MkPredicate (index : Z) (arguments : list Proposition).

(** [Literal(negated, atom)]. *)
Record Literal : Type := mkLiteral {
  negated : bool;
  atom : Proposition
}.

(** [Clause] of the grammar package: the fields the three modules read and
    write. [literals] is the tuple handed to the constructor: the code
    slices, concatenates and indexes it, and [paramodulation] removes
    duplicates itself with [set] before it constructs a clause. A clause
    built from literals alone has no inference parents and no inference
    rule; its label is generated by the grammar package (the documented
    output of [all_possible_factors] prints it as [x...]), no property here
    depends on it, and the model leaves it unset. *)
Record Clause : Type := mkClause {
  literals : list Literal;
  label : option string;
  inference_parents : option (list (option string));
  inference_rule : option string
}.

(** [Clause(literals)] with every other field left at its default. *)
Definition Clause_of (lits : list Literal) : Clause :=
  mkClause lits None None None.

(** The [.index] attribute, which all three node classes carry. *)
Definition index_of (p : Proposition) : Z :=
  match p with
  | MkVariable i => i
  | MkFunction i _ => i
  | MkPredicate i _ => i
  end.

(** The [.arguments] attribute: a [Variable] has none, and reading it there
    is an [AttributeError]. *)
Definition arguments_of (p : Proposition) : option (list Proposition) :=
  match p with
  | MkVariable _ => None
  | MkFunction _ args => Some args
  | MkPredicate _ args => Some args
  end.

(** Structural equality of dataclass values ([==]): same class, same fields. *)
Fixpoint prop_eqb (one two : Proposition) {struct one} : bool :=
  let fix list_eqb (l1 l2 : list Proposition) {struct l1} : bool :=
    match l1, l2 with
    | [], [] => true
    | x :: l1', y :: l2' => prop_eqb x y && list_eqb l1' l2'
    | _, _ => false
    end in
  match one, two with
  | MkVariable i, MkVariable j => Z.eqb i j
  | MkFunction i a1, MkFunction j a2 => Z.eqb i j && list_eqb a1 a2
  | MkPredicate i a1, MkPredicate j a2 => Z.eqb i j && list_eqb a1 a2
  | _, _ => false
  end.

(** The comparison of two argument tuples inside [prop_eqb]. *)
Fixpoint list_prop_eqb (l1 l2 : list Proposition) : bool :=
  match l1, l2 with
  | [], [] => true
  | x :: l1', y :: l2' => prop_eqb x y && list_prop_eqb l1' l2'
  | _, _ => false
  end.

Definition literal_eqb (l1 l2 : Literal) : bool :=
  Bool.eqb (negated l1) (negated l2) && prop_eqb (atom l1) (atom l2).

(** ** The text of a value *)

Section Text.
Local Open Scope string_scope.

(** [str] of a Python integer. *)
Definition repr_int (i : Z) : string :=
  NilZero.string_of_int (Z.to_int i).

(** [str] of a proposition, the form of a dataclass that the docstrings
    show: the class name, then [field=value] for every field; a tuple
    with one element is written with a trailing comma. *)
Fixpoint repr_proposition (p : Proposition) : string :=
  let fix repr_items (l : list Proposition) {struct l} : string :=
    match l with
    | nil => EmptyString
    | x :: l' =>
        match l' with
        | nil => repr_proposition x
        | _ :: _ => repr_proposition x ++ ", " ++ repr_items l'
        end
    end in
  let repr_tuple (l : list Proposition) : string :=
    match l with
    | nil => "()"
    | x :: nil => "(" ++ repr_proposition x ++ ",)"
    | _ => "(" ++ repr_items l ++ ")"
    end in
  match p with
  | MkVariable i => "Variable(index=" ++ repr_int i ++ ")"
  | MkFunction i args =>
      "Function(index=" ++ repr_int i
      ++ ", arguments=" ++ repr_tuple args ++ ")"
  | MkPredicate i args =>
      "Predicate(index=" ++ repr_int i
      ++ ", arguments=" ++ repr_tuple args ++ ")"
  end.

(** [str] of a literal. *)
Definition repr_literal (l : Literal) : string :=
  "Literal(negated=" ++ (if negated l then "True" else "False")
  ++ ", atom=" ++ repr_proposition (atom l) ++ ")".

End Text.

(** ** Exceptions *)

(** The exceptions the three modules raise or let through. [OutOfFuel] is
    not a Python exception: it marks a recursion cut off by the fuel of the
    model, and [mgu_fuel_enough] shows it is never returned. *)
Inductive exn : Type :=
| NonUnifiableError (one two : Proposition)
| TermSelfReplace
| ValueError (message : string)
| IndexError
| AttributeError
| OutOfFuel.

Inductive result (A : Type) : Type :=
| Ret (a : A)
| Raise (e : exn).

Arguments Ret {A} a.
Arguments Raise {A} e.

Definition bind {A B : Type} (r : result A) (k : A -> result B) : result B :=
  match r with
  | Ret a => k a
  | Raise e => Raise e
  end.

Notation "x <- c ;; k" := (bind c (fun x => k))
  (at level 61, c at next level, right associativity).

(** ** Iterating over a Python [set] *)

(** [tuple(s)] for a set [s] built from a sequence: the elements of the
    sequence, each once, in an order the language does not fix. The code
    builds sets of propositions (unification) and of literals
    (paramodulation). *)
Class SetOrder : Type := {
  tuple_of_prop_set : list Proposition -> list Proposition;
  tuple_of_prop_set_NoDup : forall l, NoDup (tuple_of_prop_set l);
  tuple_of_prop_set_In : forall l x, In x (tuple_of_prop_set l) <-> In x l;
  tuple_of_literal_set : list Literal -> list Literal;
  tuple_of_literal_set_NoDup : forall l, NoDup (tuple_of_literal_set l);
  tuple_of_literal_set_In : forall l x, In x (tuple_of_literal_set l) <-> In x l
}.

(** One such order: the first occurrence of each element, in the order of
    insertion. [eqb] is the structural equality of the elements. *)
Fixpoint first_seen {A : Type} (eqb : A -> A -> bool) (l : list A) : list A :=
  match l with
  | [] => []
  | x :: l' => x :: filter (fun y => negb (eqb x y)) (first_seen eqb l')
  end.

(** ** yapsap/utils.py *)

(** Modelled from the spec: [is_subproposition] of [yapsap/utils.py], which
    is not among the sources; the occurs-check, true iff [one] appears
    anywhere in the structure of [two], nested arguments included. *)
Fixpoint is_subproposition (one two : Proposition) {struct two} : bool :=
  prop_eqb one two ||
  match two with
  | MkVariable _ => false
  | MkFunction _ args => existsb (is_subproposition one) args
  | MkPredicate _ args => existsb (is_subproposition one) args
  end.

(** Modelled from the spec: [proposition_length] of [yapsap/utils.py], which
    is not among the sources; the count of nodes of the tree. *)
Fixpoint proposition_length (p : Proposition) : nat :=
  match p with
  | MkVariable _ => 1
  | MkFunction _ args => S (list_sum (map proposition_length args))
  | MkPredicate _ args => S (list_sum (map proposition_length args))
  end.

(** The nodes of a proposition in pre-order; position 0 is the proposition
    itself. *)
Fixpoint subterms (p : Proposition) : list Proposition :=
  p :: match p with
       | MkVariable _ => []
       | MkFunction _ args => flat_map subterms args
       | MkPredicate _ args => flat_map subterms args
       end.

(** Modelled from the spec: [subterm_by_index] of [yapsap/utils.py], which
    is not among the sources; the sub-term at a pre-order position, an
    out-of-range error past the size of the tree. *)
Definition subterm_by_index (p : Proposition) (index : nat) : result Proposition :=
  match nth_error (subterms p) index with
  | Some t => Ret t
  | None => Raise IndexError
  end.

(** The proposition with the node at pre-order position [index] replaced,
    and only that occurrence; unchanged when [index] is out of range. *)
Fixpoint replace_at (p : Proposition) (index : nat) (term : Proposition)
  {struct p} : Proposition :=
  let fix replace_in (l : list Proposition) (k : nat) {struct l}
    : list Proposition :=
    match l with
    | [] => []
    | x :: l' =>
        if Nat.ltb k (proposition_length x)
        then replace_at x k term :: l'
        else x :: replace_in l' (k - proposition_length x)%nat
    end in
  match index with
  | O => term
  | S k =>
      match p with
      | MkVariable _ => p
      | MkFunction i args => MkFunction i (replace_in args k)
      | MkPredicate i args => MkPredicate i (replace_in args k)
      end
  end.

(** Modelled from the spec: [replace_subterm_by_index] of
    [yapsap/utils.py], which is not among the sources; out-of-range error
    past the size of the tree, the degenerate-replacement signal when the
    replacement is structurally identical to the sub-term it replaces. *)
Definition replace_subterm_by_index (p : Proposition) (index : nat)
  (term : Proposition) : result Proposition :=
  old <- subterm_by_index p index ;;
  if prop_eqb old term then Raise TermSelfReplace
  else Ret (replace_at p index term).

(** ** yapsap/substitution.py *)

(** [Substitution(variable, term)]. *)
Record Substitution : Type := mkSubstitution {
  variable : Proposition;
  term : Proposition
}.

(** Modelled from the spec: [Substitution.__call__] of
    [yapsap/substitution.py], which is not among the sources; every
    occurrence of the bound variable is replaced by the bound term, other
    subtrees are unchanged. *)
Fixpoint substitute (s : Substitution) (target : Proposition) : Proposition :=
  match target with
  | MkVariable _ => if prop_eqb target (variable s) then term s else target
  | MkFunction i args => MkFunction i (map (substitute s) args)
  | MkPredicate i args => MkPredicate i (map (substitute s) args)
  end.

Definition substitute_in_literal (s : Substitution) (l : Literal) : Literal :=
  mkLiteral (negated l) (substitute s (atom l)).

(** Modelled from the spec: [Substitution.substitute_in_clause] of
    [yapsap/substitution.py], which is not among the sources; the
    substitution applied to the atom of every literal, the provenance
    fields kept. *)
Definition substitute_in_clause (s : Substitution) (c : Clause) : Clause :=
  mkClause (map (substitute_in_literal s) (literals c))
           (label c) (inference_parents c) (inference_rule c).

(** A unifier applied in order: one fold over the sequence. *)
Definition apply_unifier (subs : list Substitution) (p : Proposition)
  : Proposition :=
  fold_left (fun acc s => substitute s acc) subs p.

Definition apply_unifier_to_clause (subs : list Substitution) (c : Clause)
  : Clause :=
  fold_left (fun acc s => substitute_in_clause s acc) subs c.

(** A unifier applied in order to a literal. *)
Definition apply_unifier_to_literal (subs : list Substitution) (l : Literal)
  : Literal :=
  mkLiteral (negated l) (apply_unifier subs (atom l)).

(** ** yapsap/unification.py *)

(** [_get_disagreement]: [None] is the empty tuple, [Some (a, b)] the pair
    of first sub-terms that disagree. *)
Fixpoint get_disagreement (one two : Proposition) {struct one}
  : option (Proposition * Proposition) :=
  let fix zip_args (l1 l2 : list Proposition) {struct l1}
    : option (Proposition * Proposition) :=
    match l1, l2 with
    | x :: l1', y :: l2' =>
        match get_disagreement x y with
        | Some d => Some d
        | None => zip_args l1' l2'
        end
    | _, _ => None
    end in
  match one, two with
  | MkVariable i, MkVariable j =>
      if negb (Z.eqb i j) then Some (one, two) else None
  | MkFunction i a1, MkFunction j a2 =>
      if negb (Z.eqb i j) || negb (Nat.eqb (length a1) (length a2))
      then Some (one, two)
      else zip_args a1 a2
  | MkPredicate i a1, MkPredicate j a2 =>
      if negb (Z.eqb i j) || negb (Nat.eqb (length a1) (length a2))
      then Some (one, two)
      else zip_args a1 a2
  | _, _ => Some (one, two)
  end.

(** The walk over two argument tuples inside [get_disagreement]. *)
Fixpoint zip_disagreement (l1 l2 : list Proposition)
  : option (Proposition * Proposition) :=
  match l1, l2 with
  | x :: l1', y :: l2' =>
      match get_disagreement x y with
      | Some d => Some d
      | None => zip_disagreement l1' l2'
      end
  | _, _ => None
  end.

Definition is_Variable (p : Proposition) : bool :=
  match p with MkVariable _ => true | _ => false end.

Definition is_Variable_or_Function (p : Proposition) : bool :=
  match p with MkVariable _ | MkFunction _ _ => true | MkPredicate _ _ => false end.

(** [propositions[0]] and [propositions[1]] for the error's payload. *)
Definition first_two (propositions : list Proposition)
  : result (Proposition * Proposition) :=
  match propositions with
  | p0 :: p1 :: _ => Ret (p0, p1)
  | _ => Raise IndexError
  end.

(** [_propose_substitution]. *)
Definition propose_substitution (disagreement : Proposition * Proposition)
  (propositions : list Proposition) : result Substitution :=
  let substitution :=
    if is_Variable (fst disagreement)
       && is_Variable_or_Function (snd disagreement)
    then Some (mkSubstitution (fst disagreement) (snd disagreement))
    else if is_Variable (snd disagreement)
            && is_Variable_or_Function (fst disagreement)
    then Some (mkSubstitution (snd disagreement) (fst disagreement))
    else None in
  match substitution with
  | Some s =>
      if is_subproposition (variable s) (term s)
      then pq <- first_two propositions ;;
           Raise (NonUnifiableError (fst pq) (snd pq))
      else Ret s
  | None =>
      pq <- first_two propositions ;;
      Raise (NonUnifiableError (fst pq) (snd pq))
  end.

(** The indices of the variables of a proposition, in pre-order. *)
Fixpoint variables_of (p : Proposition) : list Z :=
  match p with
  | MkVariable i => [i]
  | MkFunction _ args => flat_map variables_of args
  | MkPredicate _ args => flat_map variables_of args
  end.

(** The distinct variables that occur across a sequence of propositions,
    and their number. *)
Definition distinct_variables (propositions : list Proposition) : list Z :=
  nodup Z.eq_dec (flat_map variables_of propositions).

Definition count_variables (propositions : list Proposition) : nat :=
  length (distinct_variables propositions).

(** A loop [acc = (); for x in xs: acc = acc + f(x)] whose body can raise:
    the results in order, or the first exception. *)
Fixpoint collect {A B : Type} (f : A -> result (list B)) (xs : list A)
  : result (list B) :=
  match xs with
  | [] => Ret []
  | x :: xs' =>
      r <- f x ;;
      rs <- collect f xs' ;;
      Ret (r ++ rs)
  end.

(** [enumerate(xs)]. *)
Definition enumerate {A : Type} (xs : list A) : list (nat * A) :=
  combine (seq 0 (length xs)) xs.

Section Inference.
Context {order : SetOrder}.

(** The body of [most_general_unifier], with the accumulator
    [substitutions] always given and the depth of the recursion bounded
    by [fuel]. *)
Fixpoint mgu_fuel (fuel : nat) (propositions : list Proposition)
  (substitutions : list Substitution) : result (list Substitution) :=
  match fuel with
  | O => Raise OutOfFuel
  | S fuel' =>
      match propositions with
      | [] => Raise IndexError
      | [_] => Ret substitutions
      | p0 :: p1 :: _ =>
          match get_disagreement p0 p1 with
          | None => Ret []
          | Some disagreement =>
              substitution <- propose_substitution disagreement propositions ;;
              mgu_fuel fuel'
                (tuple_of_prop_set (map (substitute substitution) propositions))
                (substitutions ++ [substitution])
          end
      end
  end.

(** One pass through the body of [most_general_unifier] that reaches the
    recursive call: the binding it appends and the rewritten proposition
    set it recurses on. *)
Definition mgu_step (propositions : list Proposition)
  : option (Substitution * list Proposition) :=
  match propositions with
  | p0 :: p1 :: _ =>
      match get_disagreement p0 p1 with
      | None => None
      | Some disagreement =>
          match propose_substitution disagreement propositions with
          | Ret substitution =>
              Some (substitution,
                    tuple_of_prop_set
                      (map (substitute substitution) propositions))
          | Raise _ => None
          end
      end
  | _ => None
  end.

(** [most_general_unifier(propositions)], called without an accumulator.
    Every recursive call removes a variable from the proposition set
    ([mgu_step_decreases]), so one unit of fuel per distinct variable and
    one for the last call is enough ([mgu_fuel_enough]). *)
Definition most_general_unifier (propositions : list Proposition)
  : result (list Substitution) :=
  mgu_fuel (S (count_variables propositions)) propositions [].

(** The runs of the loop that return the accumulated unifier: the steps
    taken, in order, down to a single proposition. *)
Inductive mgu_trace : list Proposition -> list Substitution -> Prop :=
| trace_done p : mgu_trace [p] []
| trace_step props s props' rest :
    mgu_step props = Some (s, props') ->
    mgu_trace props' rest ->
    mgu_trace props (s :: rest).

(** No binding of a run is followed by a binding whose term contains the
    variable it binds. *)
Fixpoint no_reintroduction (subs : list Substitution) : Prop :=
  match subs with
  | [] => True
  | s :: rest =>
      (forall s', In s' rest ->
                  is_subproposition (variable s) (term s') = false)
      /\ no_reintroduction rest
  end.

(** ** yapsap/factoring.py *)

(** [factoring]. *)
Definition factoring (given_clause : Clause)
  (literal_one literal_two : Literal) : result Clause :=
  if negated literal_one || negated literal_two
  then Raise (ValueError
                ("factoring is not possible for " ++ repr_literal literal_one
                 ++ " and " ++ repr_literal literal_two)%string)
  else
    substitutions <-
      most_general_unifier [atom literal_one; atom literal_two] ;;
    let new_literals := literals given_clause ++ [literal_one] in
    Ret (apply_unifier_to_clause substitutions (Clause_of new_literals)).

(** [try: ... except NonUnifiableError: pass] around one call. *)
Definition skip_non_unifiable (r : result Clause) : result (list Clause) :=
  match r with
  | Ret c => Ret [c]
  | Raise (NonUnifiableError _ _) => Ret []
  | Raise e => Raise e
  end.

(** The two nested loops of [all_possible_factors]. *)
Definition possible_factors (given_clause : Clause) : result (list Clause) :=
  let lits := literals given_clause in
  collect (fun il : nat * Literal =>
    let (i, literal_one) := il in
    collect (fun j : nat =>
      match nth_error lits j with
      | None => Raise IndexError
      | Some literal_two =>
          if negb (negated literal_one) && negb (negated literal_two)
          then
            let a_clause :=
              Clause_of (firstn i lits
                         ++ firstn (j - S i) (skipn (S i) lits)
                         ++ skipn (S j) lits) in
            skip_non_unifiable (factoring a_clause literal_one literal_two)
          else Ret []
      end) (seq (S i) (length lits - S i))) (enumerate lits).

(** [all_possible_factors]. *)
Definition all_possible_factors (given_clause : Clause)
  : result (list Clause) :=
  factors <- possible_factors given_clause ;;
  Ret (map (fun factor =>
              mkClause (literals factor) None
                       (Some [label given_clause])
                       (Some "factoring"%string)) factors).

(** ** yapsap/paramodulation.py *)

(** The reserved predicate index of the equality symbol, a constant of the
    grammar package. *)
Variable EQUALITY_SYMBOL_ID : Z.

(** [paramodulation]. *)
Definition paramodulation (clause_one : Clause)
  (literal_one : Proposition * Proposition) (clause_two : Clause)
  (literal_two : Literal) (r_position : nat) : result Clause :=
  r <- subterm_by_index (atom literal_two) r_position ;;
  substitutions <- most_general_unifier [fst literal_one; r] ;;
  new_atom <-
    replace_subterm_by_index (atom literal_two) r_position
      (snd literal_one) ;;
  let new_literals :=
    tuple_of_literal_set
      (mkLiteral (negated literal_two) new_atom
       :: literals clause_one ++ literals clause_two) in
  Ret (apply_unifier_to_clause substitutions (Clause_of new_literals)).

(** One call of [paramodulation] inside the positional loop: the clause it
    returns, or nothing when it raises. *)
Definition attempt (clause_one : Clause) (s t : Proposition)
  (clause_two : Clause) (literal_two : Literal) (k : nat) : list Clause :=
  match paramodulation clause_one (s, t) clause_two literal_two k with
  | Ret c => [c]
  | Raise _ => []
  end.

(** [p.arguments[n]]. *)
Definition argument_at (p : Proposition) (n : nat) : result Proposition :=
  match arguments_of p with
  | None => Raise AttributeError
  | Some args =>
      match nth_error args n with
      | Some a => Ret a
      | None => Raise IndexError
      end
  end.

(** [try: ... except (NonUnifiableError, TermSelfReplace): pass] around
    one call. *)
Definition skip_failed_attempt (r : result Clause) : result (list Clause) :=
  match r with
  | Ret c => Ret [c]
  | Raise (NonUnifiableError _ _) => Ret []
  | Raise TermSelfReplace => Ret []
  | Raise e => Raise e
  end.

(** [_equality_symmetry_paramodulation]. *)
Definition equality_symmetry_paramodulation (clause_one : Clause)
  (literal_one : Literal) (clause_two : Clause) (literal_two : Literal)
  (k : nat) : result (list Clause) :=
  left_to_right <-
    skip_failed_attempt
      (s <- argument_at (atom literal_one) 0 ;;
       t <- argument_at (atom literal_one) 1 ;;
       paramodulation clause_one (s, t) clause_two literal_two k) ;;
  right_to_left <-
    skip_failed_attempt
      (s <- argument_at (atom literal_one) 1 ;;
       t <- argument_at (atom literal_one) 0 ;;
       paramodulation clause_one (s, t) clause_two literal_two k) ;;
  Ret (left_to_right ++ right_to_left).

(** The guard of [all_paramodulants_from_clause], with the short-circuit
    [or] of the code: the arguments are read only when the index is the
    equality symbol and the literal is positive. *)
Definition not_an_equality (literal_one : Literal) : result bool :=
  if negb (Z.eqb (index_of (atom literal_one)) EQUALITY_SYMBOL_ID)
  then Ret true
  else if negated literal_one then Ret true
  else match arguments_of (atom literal_one) with
       | None => Raise AttributeError
       | Some args => Ret (negb (Nat.eqb (length args) 2))
       end.

(** [all_paramodulants_from_clause]. *)
Definition all_paramodulants_from_clause (clause_one : Clause)
  (literal_one : Literal) (clause_two : Clause) (literal_two : Literal)
  : result (list Clause) :=
  bad <- not_an_equality literal_one ;;
  if bad
  then Raise (ValueError
                ("expected equality, but got "
                 ++ repr_literal literal_one)%string)
  else
    s <- argument_at (atom literal_one) 0 ;;
    t <- argument_at (atom literal_one) 1 ;;
    if prop_eqb s t then Ret []
    else
      let literal_two_len := proposition_length (atom literal_two) in
      collect (equality_symmetry_paramodulation
                 clause_one literal_one clause_two literal_two)
              (seq 1 (literal_two_len - 1)).

(** [_get_new_paramodulants]. *)
Definition get_new_paramodulants (clause_one : Clause)
  (literal_one : Literal) (given_clause : Clause) : result (list Clause) :=
  let lits := literals given_clause in
  collect (fun jl : nat * Literal =>
    let (j, literal_two) := jl in
    let clause_two := Clause_of (firstn j lits ++ skipn (S j) lits) in
    forwards <-
      (if negb (negated literal_one)
          && Z.eqb (index_of (atom literal_one)) EQUALITY_SYMBOL_ID
       then all_paramodulants_from_clause
              clause_one literal_one clause_two literal_two
       else Ret []) ;;
    backwards <-
      (if negb (negated literal_two)
          && Z.eqb (index_of (atom literal_two)) EQUALITY_SYMBOL_ID
       then all_paramodulants_from_clause
              clause_two literal_two clause_one literal_one
       else Ret []) ;;
    Ret (forwards ++ backwards)) (enumerate lits).

(** [all_paramodulants_from_list]. *)
Definition all_paramodulants_from_list (clauses : list Clause)
  (given_clause : Clause) : result (list Clause) :=
  collect (fun other_clause : Clause =>
    let lits := literals other_clause in
    collect (fun il : nat * Literal =>
      let (i, literal_one) := il in
      let clause_one := Clause_of (firstn i lits ++ skipn (S i) lits) in
      new_paramodulants <-
        get_new_paramodulants clause_one literal_one given_clause ;;
      Ret (map (fun paramodulant =>
                  mkClause (literals paramodulant) None
                           (Some [label other_clause; label given_clause])
                           (Some "paramodulation"%string))
               new_paramodulants)) (enumerate lits)) clauses.
End Inference.

(** ** The documented example of [all_paramodulants_from_list] *)

(** [cnf(one, axiom, a=b | X=X)]: [a], [b] are the indices the parser
    gives to the two constants and [x] the one it gives to the variable. *)
Definition example_one (EQUALITY_SYMBOL_ID a b x : Z) : Clause :=
  mkClause
    [mkLiteral false
       (MkPredicate EQUALITY_SYMBOL_ID [MkFunction a []; MkFunction b []]);
     mkLiteral false
       (MkPredicate EQUALITY_SYMBOL_ID [MkVariable x; MkVariable x])]
    (Some "one"%string) None None.

(** [cnf(two, axiom, b=c)]. *)
Definition example_two (EQUALITY_SYMBOL_ID b c : Z) : Clause :=
  mkClause
    [mkLiteral false
       (MkPredicate EQUALITY_SYMBOL_ID [MkFunction b []; MkFunction c []])]
    (Some "two"%string) None None.

(** ** The documented examples of the other functions *)

(** The two propositions of the third example of [most_general_unifier]
    and the unifier it documents. *)
Definition doctest_one : Proposition :=
  MkPredicate 8 [MkVariable 0; MkVariable 1; MkFunction 0 [MkVariable 2]].

Definition doctest_two : Proposition :=
  MkPredicate 8
    [MkVariable 4; MkFunction 7 [MkVariable 5; MkVariable 5]; MkVariable 5].

Definition doctest_unifier : list Substitution :=
  [mkSubstitution (MkVariable 0) (MkVariable 4);
   mkSubstitution (MkVariable 1)
     (MkFunction 7 [MkVariable 5; MkVariable 5]);
   mkSubstitution (MkVariable 5) (MkFunction 0 [MkVariable 2])].

(** The clause and the two literals of the first example of [factoring]. *)
Definition doctest_clause : Clause :=
  Clause_of [mkLiteral true (MkPredicate 8 [MkVariable 0])].

Definition doctest_literal_one : Literal :=
  mkLiteral false (MkPredicate 9 [MkVariable 0]).

Definition doctest_literal_two : Literal :=
  mkLiteral false (MkPredicate 9 [MkFunction 0 []]).

(** [cnf(one, axiom, p(c) | p(X) | q)] of the example of
    [all_possible_factors], with [p], [q] the predicates 1 and 2. *)
Definition doctest_given_clause : Clause :=
  mkClause
    [mkLiteral false (MkPredicate 1 [MkFunction 0 []]);
     mkLiteral false (MkPredicate 1 [MkVariable 0]);
     mkLiteral false (MkPredicate 2 [])]
    (Some "one"%string) None None.

(** Two unary predicates for examples: [p] is the predicate 1, [q] the
    predicate 2; both literals are positive. *)
Definition example_p (x : Proposition) : Literal :=
  mkLiteral false (MkPredicate 1 [x]).

Definition example_q (x : Proposition) : Literal :=
  mkLiteral false (MkPredicate 2 [x]).

(** The positive equality of two constants, with 0 for the equality
    symbol. *)
Definition example_equality (s t : Z) : Literal :=
  mkLiteral false (MkPredicate 0 [MkFunction s []; MkFunction t []]).

(** ** Unifiers in general *)

(** A sequence of bindings makes all the propositions of a sequence
    equal. *)
Definition unifies_all (subs : list Substitution)
  (propositions : list Proposition) : Prop :=
  forall p q, In p propositions -> In q propositions ->
              apply_unifier subs p = apply_unifier subs q.

(** A sequence of bindings of terms: no binding replaces a variable by a
    predicate. *)
Definition binds_terms (subs : list Substitution) : Prop :=
  Forall (fun s => is_Variable_or_Function (term s) = true) subs.

(** The roots of two propositions differ: the test [_get_disagreement]
    makes before it returns the pair it was given. *)
Definition roots_differ (one two : Proposition) : Prop :=
  match one, two with
  | MkVariable i, MkVariable j => i <> j
  | MkFunction i a1, MkFunction j a2 => i <> j \/ length a1 <> length a2
  | MkPredicate i a1, MkPredicate j a2 => i <> j \/ length a1 <> length a2
  | _, _ => True
  end.

(** A literal as the grammar types it: its atom is a predicate, and an
    atom of the equality symbol has two arguments. *)
Definition well_formed_literal (EQUALITY_SYMBOL_ID : Z) (l : Literal)
  : Prop :=
  match atom l with
  | MkPredicate i args => i = EQUALITY_SYMBOL_ID -> length args = 2%nat
  | _ => False
  end.

(** A literal that [_get_new_paramodulants] takes for an equation: positive,
    with the index of the equality symbol. *)
Definition is_positive_equality (EQUALITY_SYMBOL_ID : Z) (l : Literal)
  : bool :=
  negb (negated l) && Z.eqb (index_of (atom l)) EQUALITY_SYMBOL_ID.

(** A pair with its two sides exchanged. *)
Definition swap_pair (d : Proposition * Proposition)
  : Proposition * Proposition :=
  (snd d, fst d).

(** Three propositions, [X0], [f1(X1)] and [f1(f0())], that one unifier
    makes equal. *)
Definition example_three : list Proposition :=
  [MkVariable 0; MkFunction 1 [MkVariable 1]; MkFunction 1 [MkFunction 0 []]].

(** A clause with one negative and one positive literal. *)
Definition example_mixed_clause : Clause :=
  Clause_of [mkLiteral true (MkPredicate 1 [MkVariable 0]);
             mkLiteral false (MkPredicate 1 [MkFunction 0 []])].

(** [u] and [v] are the two arguments of the atom of a literal, in one
    order or the other. *)
Definition equation_sides (l : Literal) (u v : Proposition) : Prop :=
  arguments_of (atom l) = Some [u; v] \/ arguments_of (atom l) = Some [v; u].

(** [cnf(three, axiom, c=d)], a second processed clause for the example,
    with [d] the constant 3 and 0 for the equality symbol. *)
Definition example_processed_three : Clause :=
  mkClause [example_equality 2 3] (Some "three"%string) None None.

(** ** Structural equality *)

(** Induction over propositions that also covers the argument lists. *)
Lemma Proposition_rect' (P : Proposition -> Type)
  (Q : list Proposition -> Type)
  (HV : forall i, P (MkVariable i))
  (HF : forall i args, Q args -> P (MkFunction i args))
  (HP : forall i args, Q args -> P (MkPredicate i args))
  (Hnil : Q [])
  (Hcons : forall x l, P x -> Q l -> Q (x :: l)) :
  forall p, P p.
Proof.
  fix IH 1.
  intros [i | i args | i args].
  - apply HV.
  - apply HF. induction args as [| x l IHl]; [exact Hnil |].
    apply Hcons; [apply IH | exact IHl].
  - apply HP. induction args as [| x l IHl]; [exact Hnil |].
    apply Hcons; [apply IH | exact IHl].
Defined.

Lemma Proposition_ind' (P : Proposition -> Prop)
  (HV : forall i, P (MkVariable i))
  (HF : forall i args, Forall P args -> P (MkFunction i args))
  (HP : forall i args, Forall P args -> P (MkPredicate i args)) :
  forall p, P p.
Proof.
  apply (Proposition_rect' P (Forall P)); auto.
Qed.

Lemma prop_eqb_Function i a1 j a2 :
  prop_eqb (MkFunction i a1) (MkFunction j a2)
  = Z.eqb i j && list_prop_eqb a1 a2.
Proof. reflexivity. Qed.

Lemma prop_eqb_Predicate i a1 j a2 :
  prop_eqb (MkPredicate i a1) (MkPredicate j a2)
  = Z.eqb i j && list_prop_eqb a1 a2.
Proof. reflexivity. Qed.

Lemma list_prop_eqb_eq l1 :
  Forall (fun p => forall q, prop_eqb p q = true <-> p = q) l1 ->
  forall l2, list_prop_eqb l1 l2 = true <-> l1 = l2.
Proof.
  induction 1 as [| x l Hx Hl IH]; intros [| y l2]; cbn;
    try (split; [discriminate | discriminate]).
  - split; reflexivity.
  - rewrite andb_true_iff, Hx, IH. split.
    + intros [-> ->]. reflexivity.
    + intros E. injection E as -> ->. split; reflexivity.
Qed.

Lemma prop_eqb_eq p : forall q, prop_eqb p q = true <-> p = q.
Proof.
  induction p as [i | i args IH | i args IH] using Proposition_ind';
    intros [j | j a2 | j a2];
    try (cbn; split; discriminate).
  - cbn. rewrite Z.eqb_eq. split; [congruence |]. intros E. now injection E.
  - rewrite prop_eqb_Function, andb_true_iff, Z.eqb_eq,
      (list_prop_eqb_eq _ IH).
    split; [intros [-> ->]; reflexivity |].
    intros E. injection E as -> ->. split; reflexivity.
  - rewrite prop_eqb_Predicate, andb_true_iff, Z.eqb_eq,
      (list_prop_eqb_eq _ IH).
    split; [intros [-> ->]; reflexivity |].
    intros E. injection E as -> ->. split; reflexivity.
Qed.

Lemma prop_eqb_refl p : prop_eqb p p = true.
Proof. now apply prop_eqb_eq. Qed.

Lemma literal_eqb_eq l1 l2 : literal_eqb l1 l2 = true <-> l1 = l2.
Proof.
  destruct l1 as [n1 a1], l2 as [n2 a2]. unfold literal_eqb. cbn.
  rewrite andb_true_iff, eqb_true_iff, prop_eqb_eq.
  split; [intros [-> ->]; reflexivity |].
  intros E. injection E as -> ->. split; reflexivity.
Qed.

(** ** One iteration order: first occurrences, in the order of insertion *)


Section FirstSeen.
Variable A : Type.
Variable eqb : A -> A -> bool.
Hypothesis eqb_eq : forall x y, eqb x y = true <-> x = y.

Lemma first_seen_In l x : In x (first_seen eqb l) <-> In x l.
Proof.
  induction l as [| a l IH]; cbn; [tauto |].
  rewrite filter_In, IH, negb_true_iff.
  destruct (eqb a x) eqn:E.
  - apply eqb_eq in E. subst. intuition congruence.
  - assert (a <> x) by (intros ->; rewrite (proj2 (eqb_eq x x) eq_refl) in E;
                        discriminate).
    tauto.
Qed.

Lemma first_seen_NoDup l : NoDup (first_seen eqb l).
Proof.
  induction l as [| a l IH]; cbn; constructor.
  - rewrite filter_In, negb_true_iff.
    intros [_ E]. rewrite (proj2 (eqb_eq a a) eq_refl) in E. discriminate.
  - now apply NoDup_filter.
Qed.
End FirstSeen.

#[local] Instance first_seen_order : SetOrder := {|
  tuple_of_prop_set := first_seen prop_eqb;
  tuple_of_prop_set_NoDup := first_seen_NoDup _ prop_eqb prop_eqb_eq;
  tuple_of_prop_set_In := first_seen_In _ prop_eqb prop_eqb_eq;
  tuple_of_literal_set := first_seen literal_eqb;
  tuple_of_literal_set_NoDup := first_seen_NoDup _ literal_eqb literal_eqb_eq;
  tuple_of_literal_set_In := first_seen_In _ literal_eqb literal_eqb_eq
|}.

(** ** The disagreement pair *)

Lemma get_disagreement_Function i a1 j a2 :
  get_disagreement (MkFunction i a1) (MkFunction j a2)
  = if negb (Z.eqb i j) || negb (Nat.eqb (length a1) (length a2))
    then Some (MkFunction i a1, MkFunction j a2)
    else zip_disagreement a1 a2.
Proof. reflexivity. Qed.

Lemma get_disagreement_Predicate i a1 j a2 :
  get_disagreement (MkPredicate i a1) (MkPredicate j a2)
  = if negb (Z.eqb i j) || negb (Nat.eqb (length a1) (length a2))
    then Some (MkPredicate i a1, MkPredicate j a2)
    else zip_disagreement a1 a2.
Proof. reflexivity. Qed.

Lemma zip_disagreement_None l1 :
  Forall (fun p => forall q, get_disagreement p q = None -> p = q) l1 ->
  forall l2, length l1 = length l2 ->
             zip_disagreement l1 l2 = None -> l1 = l2.
Proof.
  induction 1 as [| x l Hx _ IH]; intros [| y l2] Hlen; cbn in *;
    try discriminate; [reflexivity |].
  destruct (get_disagreement x y) eqn:E; [discriminate |].
  intros Hz. f_equal; [now apply Hx | apply IH; [lia | exact Hz]].
Qed.

(** No disagreement means structural equality. *)
Lemma get_disagreement_None p :
  forall q, get_disagreement p q = None -> p = q.
Proof.
  induction p as [i | i args IH | i args IH] using Proposition_ind';
    intros [j | j a2 | j a2]; try (cbn; discriminate).
  - cbn. destruct (Z.eqb_spec i j); cbn; [congruence | discriminate].
  - rewrite get_disagreement_Function.
    destruct (Z.eqb_spec i j); cbn; [| discriminate].
    destruct (Nat.eqb_spec (length args) (length a2)); cbn; [| discriminate].
    intros Hz. subst. f_equal. now apply zip_disagreement_None.
  - rewrite get_disagreement_Predicate.
    destruct (Z.eqb_spec i j); cbn; [| discriminate].
    destruct (Nat.eqb_spec (length args) (length a2)); cbn; [| discriminate].
    intros Hz. subst. f_equal. now apply zip_disagreement_None.
Qed.

Lemma zip_disagreement_variables l1 :
  Forall (fun p => forall q a b, get_disagreement p q = Some (a, b) ->
                   incl (variables_of a) (variables_of p)
                   /\ incl (variables_of b) (variables_of q)) l1 ->
  forall l2 a b, zip_disagreement l1 l2 = Some (a, b) ->
                 incl (variables_of a) (flat_map variables_of l1)
                 /\ incl (variables_of b) (flat_map variables_of l2).
Proof.
  induction 1 as [| x l Hx _ IH]; intros [| y l2] a b; cbn;
    try discriminate.
  destruct (get_disagreement x y) as [d |] eqn:E.
  - intros [= ->]. destruct (Hx _ _ _ E) as [Ha Hb].
    split; apply incl_appl; assumption.
  - intros Hz. destruct (IH _ _ _ Hz) as [Ha Hb].
    split; apply incl_appr; assumption.
Qed.

(** Both sides of the disagreement pair are sub-terms of the propositions
    compared, so they bring no new variable. *)
Lemma get_disagreement_variables p :
  forall q a b, get_disagreement p q = Some (a, b) ->
                incl (variables_of a) (variables_of p)
                /\ incl (variables_of b) (variables_of q).
Proof.
  induction p as [i | i args IH | i args IH] using Proposition_ind';
    intros [j | j a2 | j a2] a b;
    try (cbn; intros [= <- <-]; split; apply incl_refl).
  - cbn. destruct (Z.eqb i j); cbn; [discriminate |].
    intros [= <- <-]; split; apply incl_refl.
  - rewrite get_disagreement_Function.
    destruct (negb (i =? j) || negb (length args =? length a2)%nat).
    + intros [= <- <-]; split; apply incl_refl.
    + cbn [variables_of]. now apply zip_disagreement_variables.
  - rewrite get_disagreement_Predicate.
    destruct (negb (i =? j) || negb (length args =? length a2)%nat).
    + intros [= <- <-]; split; apply incl_refl.
    + cbn [variables_of]. now apply zip_disagreement_variables.
Qed.

(** ** Variables, the occurs-check and substitution *)

Lemma is_subproposition_variable x t :
  is_subproposition (MkVariable x) t = true <-> In x (variables_of t).
Proof.
  induction t as [i | i args IH | i args IH] using Proposition_ind'.
  - cbn. rewrite orb_false_r, Z.eqb_eq. intuition congruence.
  - cbn [is_subproposition variables_of prop_eqb]. cbn [orb].
    rewrite existsb_exists, in_flat_map.
    split; intros [t [Hin Ht]]; exists t; split; try assumption;
      rewrite Forall_forall in IH; now apply (IH t Hin).
  - cbn [is_subproposition variables_of prop_eqb]. cbn [orb].
    rewrite existsb_exists, in_flat_map.
    split; intros [t [Hin Ht]]; exists t; split; try assumption;
      rewrite Forall_forall in IH; now apply (IH t Hin).
Qed.

Lemma is_subproposition_variable_false x t :
  is_subproposition (MkVariable x) t = false <-> ~ In x (variables_of t).
Proof.
  rewrite <- is_subproposition_variable.
  destruct (is_subproposition (MkVariable x) t); split; congruence.
Qed.

(** A binding [x := t] removes [x] and brings at most the variables of
    [t]. *)
Lemma variables_of_substitute x t p y :
  In y (variables_of (substitute (mkSubstitution (MkVariable x) t) p)) ->
  (In y (variables_of p) /\ y <> x) \/ In y (variables_of t).
Proof.
  induction p as [i | i args IH | i args IH] using Proposition_ind'.
  - cbn. destruct (Z.eqb_spec i x).
    + now right.
    + cbn. intros [<- | []]. left. split; [now left | assumption].
  - cbn [substitute variables_of]. rewrite !in_flat_map.
    intros [p' [Hin Hy]]. apply in_map_iff in Hin.
    destruct Hin as [p [<- Hin]]. rewrite Forall_forall in IH.
    destruct (IH p Hin Hy) as [[H1 H2] | H]; [left | now right].
    split; [exists p; now split | assumption].
  - cbn [substitute variables_of]. rewrite !in_flat_map.
    intros [p' [Hin Hy]]. apply in_map_iff in Hin.
    destruct Hin as [p [<- Hin]]. rewrite Forall_forall in IH.
    destruct (IH p Hin Hy) as [[H1 H2] | H]; [left | now right].
    split; [exists p; now split | assumption].
Qed.

Lemma distinct_variables_In props y :
  In y (distinct_variables props)
  <-> exists p, In p props /\ In y (variables_of p).
Proof.
  unfold distinct_variables. rewrite nodup_In, in_flat_map. reflexivity.
Qed.

(** What [propose_substitution] returns when it returns: a variable of the
    disagreement pair bound to the other side, which is not a predicate and
    does not contain the variable. *)
Lemma propose_substitution_Ret d props s :
  propose_substitution d props = Ret s ->
  exists x t, s = mkSubstitution (MkVariable x) t
              /\ ((fst d = MkVariable x /\ snd d = t)
                  \/ (snd d = MkVariable x /\ fst d = t))
              /\ is_Variable_or_Function t = true
              /\ ~ In x (variables_of t).
Proof.
  unfold propose_substitution. destruct d as [a b]. cbn [fst snd].
  destruct (is_Variable a && is_Variable_or_Function b) eqn:E1.
  - apply andb_true_iff in E1. destruct E1 as [Ha Hb].
    destruct a as [x | |]; try discriminate. cbn [variable term].
    destruct (is_subproposition (MkVariable x) b) eqn:Eo.
    + destruct (first_two props); discriminate.
    + intros [= <-]. exists x, b. repeat split; auto.
      now apply is_subproposition_variable_false.
  - destruct (is_Variable b && is_Variable_or_Function a) eqn:E2.
    + apply andb_true_iff in E2. destruct E2 as [Hb Ha].
      destruct b as [x | |]; try discriminate. cbn [variable term].
      destruct (is_subproposition (MkVariable x) a) eqn:Eo.
      * destruct (first_two props); discriminate.
      * intros [= <-]. exists x, a. repeat split; auto.
        now apply is_subproposition_variable_false.
    + destruct (first_two props); discriminate.
Qed.

(** ** One step of the unification loop *)

Section UnificationFacts.
Context {order : SetOrder}.

(** The shape of a step: the binding comes from the disagreement pair of
    the first two propositions. *)
Lemma mgu_step_inv props s props' :
  mgu_step props = Some (s, props') ->
  exists x t,
    s = mkSubstitution (MkVariable x) t
    /\ In x (distinct_variables props)
    /\ incl (variables_of t) (distinct_variables props)
    /\ ~ In x (variables_of t)
    /\ is_Variable_or_Function t = true
    /\ props' = tuple_of_prop_set (map (substitute s) props).
Proof.
  unfold mgu_step. destruct props as [| p0 [| p1 rest]]; try discriminate.
  destruct (get_disagreement p0 p1) as [[a b] |] eqn:Ed; [| discriminate].
  destruct (propose_substitution (a, b) (p0 :: p1 :: rest)) as [s0 | e]
    eqn:Ep; [| discriminate].
  intros [= <- <-].
  destruct (propose_substitution_Ret _ _ _ Ep) as (x & t & -> & Hd & Hvf & Hocc).
  destruct (get_disagreement_variables _ _ _ _ Ed) as [Ha Hb].
  assert (H0 : incl (variables_of p0)
                 (distinct_variables (p0 :: p1 :: rest))).
  { intros y Hy. apply distinct_variables_In. exists p0. split; [now left | assumption]. }
  assert (H1 : incl (variables_of p1)
                 (distinct_variables (p0 :: p1 :: rest))).
  { intros y Hy. apply distinct_variables_In. exists p1.
    split; [right; now left | assumption]. }
  exists x, t. cbn [fst snd] in Hd.
  destruct Hd as [[-> ->] | [-> ->]].
  - repeat split; auto.
    + apply H0, Ha. now left.
    + intros y Hy. apply H1, Hb, Hy.
  - repeat split; auto.
    + apply H1, Hb. now left.
    + intros y Hy. apply H0, Ha, Hy.
Qed.

(** The variables left after a step: those of before, without the one just
    bound. *)
Lemma mgu_step_variables props x t props' y :
  mgu_step props = Some (mkSubstitution (MkVariable x) t, props') ->
  In y (distinct_variables props') ->
  In y (distinct_variables props) /\ y <> x.
Proof.
  intros Hstep Hy.
  destruct (mgu_step_inv _ _ _ Hstep) as (x' & t' & E & Hx & Ht & Hocc & _ & ->).
  injection E as <- <-.
  apply distinct_variables_In in Hy. destruct Hy as (p' & Hin & Hy).
  apply tuple_of_prop_set_In, in_map_iff in Hin.
  destruct Hin as (p & <- & Hin).
  destruct (variables_of_substitute _ _ _ _ Hy) as [[H1 H2] | H].
  - split; [| assumption]. apply distinct_variables_In. now exists p.
  - split; [now apply Ht |]. intros ->. contradiction.
Qed.

Lemma distinct_variables_NoDup props : NoDup (distinct_variables props).
Proof. apply NoDup_nodup. Qed.

(** A step strictly reduces the number of distinct variables. *)
Lemma mgu_step_decreases props s props' :
  mgu_step props = Some (s, props') ->
  (count_variables props' < count_variables props)%nat.
Proof.
  intros Hstep.
  destruct (mgu_step_inv _ _ _ Hstep) as (x & t & -> & Hx & _).
  unfold count_variables.
  assert (Hnd : NoDup (x :: distinct_variables props')).
  { constructor; [| apply distinct_variables_NoDup].
    intros Hin. now destruct (mgu_step_variables _ _ _ _ _ Hstep Hin). }
  assert (Hincl : incl (x :: distinct_variables props')
                       (distinct_variables props)).
  { intros y [<- | Hy]; [assumption |].
    now destruct (mgu_step_variables _ _ _ _ _ Hstep Hy). }
  pose proof (NoDup_incl_length Hnd Hincl) as Hlen. cbn in Hlen. lia.
Qed.

(** [mgu_fuel] in terms of [mgu_step]. *)
Lemma mgu_fuel_step fuel props acc s props' :
  mgu_step props = Some (s, props') ->
  mgu_fuel (S fuel) props acc = mgu_fuel fuel props' (acc ++ [s]).
Proof.
  unfold mgu_step. cbn [mgu_fuel].
  destruct props as [| p0 [| p1 rest]]; try discriminate.
  destruct (get_disagreement p0 p1) as [d |]; [| discriminate].
  destruct (propose_substitution d (p0 :: p1 :: rest)); [| discriminate].
  now intros [= <- <-].
Qed.

Lemma mgu_fuel_no_step fuel props acc :
  mgu_step props = None ->
  mgu_fuel (S fuel) props acc = mgu_fuel 1 props acc
  /\ mgu_fuel (S fuel) props acc <> Raise OutOfFuel.
Proof.
  unfold mgu_step. cbn [mgu_fuel].
  destruct props as [| p0 [| p1 rest]]; try (split; [reflexivity | discriminate]).
  destruct (get_disagreement p0 p1) as [d |];
    [| split; [reflexivity | discriminate]].
  unfold propose_substitution, first_two, bind.
  repeat match goal with
         | |- context [if ?b then _ else _] => destruct b
         end; cbn; intros; try discriminate;
    (split; [reflexivity | discriminate]).
Qed.

(** With more fuel than distinct variables the recursion never runs out,
    and its result does not depend on the fuel. *)
Lemma mgu_fuel_enough fuel :
  forall props acc fuel',
    (count_variables props < fuel)%nat ->
    (count_variables props < fuel')%nat ->
    mgu_fuel fuel props acc = mgu_fuel fuel' props acc
    /\ mgu_fuel fuel props acc <> Raise OutOfFuel.
Proof.
  induction fuel as [| fuel IH]; intros props acc fuel' H1 H2; [lia |].
  destruct fuel' as [| fuel']; [lia |].
  destruct (mgu_step props) as [[s props'] |] eqn:Hstep.
  - pose proof (mgu_step_decreases _ _ _ Hstep) as Hlt.
    rewrite !(mgu_fuel_step _ _ _ _ _ Hstep).
    apply IH; lia.
  - destruct (mgu_fuel_no_step fuel _ acc Hstep) as [E1 N1].
    destruct (mgu_fuel_no_step fuel' _ acc Hstep) as [E2 _].
    split; [congruence | assumption].
Qed.

(** The three ways [most_general_unifier] returns. *)
Lemma mgu_fuel_Ret fuel props acc res :
  mgu_fuel (S fuel) props acc = Ret res ->
  (exists p, props = [p] /\ res = acc)
  \/ (exists p tl, props = p :: p :: tl /\ res = [])
  \/ (exists s props', mgu_step props = Some (s, props')
                       /\ mgu_fuel fuel props' (acc ++ [s]) = Ret res).
Proof.
  cbn [mgu_fuel]. unfold mgu_step.
  destruct props as [| p0 [| p1 tl]]; [discriminate | |].
  - intros [= <-]. left. now exists p0.
  - destruct (get_disagreement p0 p1) as [d |] eqn:Ed.
    + destruct (propose_substitution d (p0 :: p1 :: tl)) as [s | e];
        [| discriminate].
      cbn [bind]. intros H. right. right. exists s. eexists. split; [reflexivity | exact H].
    + intros [= <-]. right. left.
      apply get_disagreement_None in Ed. subst. now exists p1, tl.
Qed.

Lemma mgu_fuel_trace fuel :
  forall props acc res,
    NoDup props ->
    mgu_fuel fuel props acc = Ret res ->
    exists rest, res = acc ++ rest /\ mgu_trace props rest.
Proof.
  induction fuel as [| fuel IH]; intros props acc res Hnd H;
    [discriminate |].
  apply mgu_fuel_Ret in H.
  destruct H as [(p & -> & ->) | [(p & tl & -> & ->) | (s & props' & Hs & H)]].
  - exists []. split; [now rewrite app_nil_r | constructor].
  - inversion Hnd as [| ? ? Hnotin _]. exfalso. apply Hnotin. now left.
  - destruct (mgu_step_inv _ _ _ Hs) as (_ & _ & _ & _ & _ & _ & _ & E).
    apply IH in H; [| rewrite E; apply tuple_of_prop_set_NoDup].
    destruct H as (rest & -> & Ht). exists (s :: rest).
    split; [now rewrite <- app_assoc | econstructor; eassumption].
Qed.

Lemma most_general_unifier_trace props res :
  most_general_unifier props = Ret res ->
  mgu_trace props res \/ (res = [] /\ exists p tl, props = p :: p :: tl).
Proof.
  unfold most_general_unifier. intros H. apply mgu_fuel_Ret in H.
  destruct H as [(p & -> & ->) | [(p & tl & -> & ->) | (s & props' & Hs & H)]].
  - left. constructor.
  - right. split; [reflexivity | now exists p, tl].
  - left. destruct (mgu_step_inv _ _ _ Hs) as (_ & _ & _ & _ & _ & _ & _ & E).
    apply mgu_fuel_trace in H; [| rewrite E; apply tuple_of_prop_set_NoDup].
    destruct H as (rest & -> & Ht). cbn [app]. econstructor; eassumption.
Qed.

(** A returned run makes all the propositions of the set equal. *)
Lemma mgu_trace_unifies props rest :
  mgu_trace props rest ->
  forall p q, In p props -> In q props ->
              apply_unifier rest p = apply_unifier rest q.
Proof.
  induction 1 as [p0 | props s props' rest Hs _ IH]; intros p q Hp Hq.
  - destruct Hp as [<- | []], Hq as [<- | []]. reflexivity.
  - destruct (mgu_step_inv _ _ _ Hs) as (_ & _ & _ & _ & _ & _ & _ & E).
    unfold apply_unifier. cbn [fold_left]. apply IH; rewrite E;
      apply tuple_of_prop_set_In, in_map; assumption.
Qed.

(** The bindings of a run bind variables of the set to terms over the
    variables of the set. *)
Lemma mgu_trace_variables props rest :
  mgu_trace props rest ->
  forall s, In s rest ->
            exists x, variable s = MkVariable x
                      /\ In x (distinct_variables props)
                      /\ incl (variables_of (term s))
                              (distinct_variables props).
Proof.
  induction 1 as [p0 | props s props' rest Hs _ IH]; intros s0 Hin.
  - destruct Hin.
  - destruct (mgu_step_inv _ _ _ Hs) as (x & t & -> & Hx & Ht & _).
    destruct Hin as [<- | Hin].
    + exists x. cbn. auto.
    + destruct (IH _ Hin) as (y & Ey & Hy & Hty). exists y.
      split; [assumption |]. split.
      * now destruct (mgu_step_variables _ _ _ _ _ Hs Hy).
      * intros z Hz. now destruct (mgu_step_variables _ _ _ _ _ Hs (Hty z Hz)).
Qed.

Lemma mgu_trace_no_reintroduction props rest :
  mgu_trace props rest -> no_reintroduction rest.
Proof.
  induction 1 as [p0 | props s props' rest Hs Ht IH]; cbn; [exact I |].
  split; [| assumption]. intros s' Hin.
  destruct (mgu_step_inv _ _ _ Hs) as (x & t & -> & _).
  destruct (mgu_trace_variables _ _ Ht _ Hin) as (y & _ & _ & Hty).
  cbn [variable]. apply is_subproposition_variable_false. intros Hx.
  now destruct (mgu_step_variables _ _ _ _ _ Hs (Hty x Hx)).
Qed.

Lemma no_reintroduction_nth subs :
  no_reintroduction subs ->
  forall i j si sj,
    (i < j)%nat -> nth_error subs i = Some si -> nth_error subs j = Some sj ->
    is_subproposition (variable si) (term sj) = false.
Proof.
  induction subs as [| s rest IH]; intros Hn i j si sj Hlt Hi Hj.
  - destruct i; discriminate.
  - destruct Hn as [Hhd Htl]. destruct j as [| j]; [lia |]. cbn in Hj. destruct i as [| i].
    + cbn in Hi. injection Hi as <-. apply Hhd.
      now apply nth_error_In in Hj.
    + cbn in Hi. apply (IH Htl i j); [lia | assumption | assumption].
Qed.

(** [propose_substitution] raises nothing but [NonUnifiableError], with the
    first two propositions as its payload. *)
Lemma propose_substitution_Raise d p0 p1 tl e :
  propose_substitution d (p0 :: p1 :: tl) = Raise e ->
  e = NonUnifiableError p0 p1.
Proof.
  unfold propose_substitution. cbn [first_two bind fst snd].
  repeat match goal with
         | |- context [if ?b then _ else _] => destruct b
         end; intros [= <-]; reflexivity.
Qed.

(** On a non-empty sequence, and with enough fuel, the loop returns a
    unifier or raises [NonUnifiableError]. *)
Lemma mgu_fuel_outcome fuel :
  forall props acc,
    props <> [] ->
    (count_variables props < fuel)%nat ->
    (exists subs, mgu_fuel fuel props acc = Ret subs)
    \/ (exists p q, mgu_fuel fuel props acc = Raise (NonUnifiableError p q)).
Proof.
  induction fuel as [| fuel IH]; intros props acc Hne Hlt; [lia |].
  destruct (mgu_step props) as [[s props'] |] eqn:Hstep.
  - rewrite (mgu_fuel_step _ _ _ _ _ Hstep).
    pose proof (mgu_step_decreases _ _ _ Hstep) as Hdec.
    apply IH; [| lia].
    destruct (mgu_step_inv _ _ _ Hstep) as (_ & _ & _ & _ & _ & _ & _ & ->).
    destruct props as [| p0 tl]; [congruence |].
    intros E.
    assert (Hin : In (substitute s p0)
                     (tuple_of_prop_set (map (substitute s) (p0 :: tl))))
      by (apply tuple_of_prop_set_In; now left).
    rewrite E in Hin. destruct Hin.
  - revert Hstep. unfold mgu_step. cbn [mgu_fuel].
    destruct props as [| p0 [| p1 tl]]; [congruence | |].
    + intros _. left. now exists acc.
    + destruct (get_disagreement p0 p1) as [d |].
      * destruct (propose_substitution d (p0 :: p1 :: tl)) as [s | e] eqn:Ep;
          [discriminate |].
        intros _. right. apply propose_substitution_Raise in Ep. subst e.
        now exists p0, p1.
      * intros _. left. now exists [].
Qed.

Lemma most_general_unifier_outcome props :
  props <> [] ->
  (exists subs, most_general_unifier props = Ret subs)
  \/ (exists p q, most_general_unifier props = Raise (NonUnifiableError p q)).
Proof.
  intros Hne. apply mgu_fuel_outcome; [assumption | lia].
Qed.

(** ** Unification: the properties *)

(** C1. When [most_general_unifier] succeeds on a pair [(p, q)], applying
    the returned substitutions in order, in a single fold, to [p] and to
    [q] yields structurally equal propositions. *)
Theorem most_general_unifier_sound p q subs :
  most_general_unifier [p; q] = Ret subs ->
  apply_unifier subs p = apply_unifier subs q.
Proof.
  intros H. apply most_general_unifier_trace in H.
  destruct H as [Ht | [_ (p' & tl & E)]].
  - apply (mgu_trace_unifies _ _ Ht); cbn; auto.
  - injection E as -> -> _. reflexivity.
Qed.

(** C2, on sequences without repetition: the returned unifier makes all
    the propositions of the sequence equal, not only the first two. *)
Lemma most_general_unifier_unifies_distinct props subs :
  NoDup props ->
  most_general_unifier props = Ret subs ->
  forall p q, In p props -> In q props ->
              apply_unifier subs p = apply_unifier subs q.
Proof.
  intros Hnd H. apply most_general_unifier_trace in H.
  destruct H as [Ht | [_ (p' & tl & E)]].
  - apply (mgu_trace_unifies _ _ Ht).
  - subst props. inversion Hnd as [| ? ? Hnotin _]. exfalso.
    apply Hnotin. now left.
Qed.

(** C2, at the sequence [(X0, X0, f0())]: the first two propositions are
    equal, [most_general_unifier] returns the empty unifier at once, and the
    third proposition is left different from the first two. *)
Theorem most_general_unifier_early_return :
  most_general_unifier [MkVariable 0; MkVariable 0; MkFunction 0 []] = Ret []
  /\ apply_unifier [] (MkVariable 0) <> apply_unifier [] (MkFunction 0 []).
Proof.
  split; [reflexivity | cbn; discriminate].
Qed.

(** C7. Every step of [most_general_unifier] that appends a binding and
    rewrites the proposition set strictly reduces the number of distinct
    variables of the set; so the recursion ends on every input: with more
    fuel than distinct variables the result is never the out-of-fuel mark
    and is the same for every such fuel. *)
Theorem most_general_unifier_terminates props :
  (forall s props',
      mgu_step props = Some (s, props') ->
      (count_variables props' < count_variables props)%nat)
  /\ most_general_unifier props <> Raise OutOfFuel
  /\ (forall fuel acc,
         (count_variables props < fuel)%nat ->
         mgu_fuel fuel props acc
         = mgu_fuel (S (count_variables props)) props acc
         /\ mgu_fuel fuel props acc <> Raise OutOfFuel).
Proof.
  split; [intros s props'; apply mgu_step_decreases |].
  split.
  - unfold most_general_unifier.
    apply (mgu_fuel_enough _ props [] (S (count_variables props))); lia.
  - intros fuel acc Hlt. apply mgu_fuel_enough; lia.
Qed.

(** C8. In a unifier returned by [most_general_unifier], the variable
    bound by the substitution at position [i] does not occur in the term
    of the substitution at any later position [j]. *)
Theorem most_general_unifier_no_reintroduction props subs :
  most_general_unifier props = Ret subs ->
  forall i j si sj,
    (i < j)%nat ->
    nth_error subs i = Some si ->
    nth_error subs j = Some sj ->
    is_subproposition (variable si) (term sj) = false.
Proof.
  intros H. apply most_general_unifier_trace in H.
  destruct H as [Ht | [-> _]].
  - apply no_reintroduction_nth.
    apply (mgu_trace_no_reintroduction _ _ Ht).
  - intros [| i] j si sj _ Hi; discriminate.
Qed.

(** C10. On the empty sequence [most_general_unifier] neither returns a
    unifier nor raises [NonUnifiableError]: reading the first proposition
    is an [IndexError]. On every non-empty sequence it returns a unifier or
    raises [NonUnifiableError]. *)
Theorem most_general_unifier_empty :
  most_general_unifier [] = Raise IndexError
  /\ (forall props,
         props <> [] ->
         (exists subs, most_general_unifier props = Ret subs)
         \/ (exists p q,
                most_general_unifier props = Raise (NonUnifiableError p q))).
Proof.
  split; [reflexivity | apply most_general_unifier_outcome].
Qed.

End UnificationFacts.

(** ** Loops that collect results *)

Lemma collect_In {A B : Type} (f : A -> result (list B)) xs res c :
  collect f xs = Ret res ->
  In c res ->
  exists x r, In x xs /\ f x = Ret r /\ In c r.
Proof.
  revert res. induction xs as [| x xs IH]; intros res; cbn.
  - intros [= <-] [].
  - destruct (f x) as [r |] eqn:Ex; [| discriminate]. cbn.
    destruct (collect f xs) as [rs |]; [| discriminate]. cbn.
    intros [= <-] Hin. apply in_app_or in Hin. destruct Hin as [Hin | Hin].
    + exists x, r. auto.
    + destruct (IH rs eq_refl Hin) as (x' & r' & H1 & H2 & H3).
      exists x', r'. auto.
Qed.

Lemma collect_total {A B : Type} (f : A -> result (list B)) xs :
  (forall x, In x xs -> exists r, f x = Ret r) ->
  exists res, collect f xs = Ret res.
Proof.
  induction xs as [| x xs IH]; intros H; cbn.
  - now exists [].
  - destruct (H x (or_introl eq_refl)) as [r ->].
    destruct IH as [rs ->]; [intros y Hy; apply H; now right |].
    cbn. now eexists.
Qed.

Lemma collect_Ret_flat_map {A B : Type} (f : A -> result (list B))
  (g : A -> list B) xs :
  (forall x, In x xs -> f x = Ret (g x)) ->
  collect f xs = Ret (flat_map g xs).
Proof.
  induction xs as [| x xs IH]; intros Hfg; cbn; [reflexivity |].
  rewrite (Hfg x) by now left. cbn.
  rewrite IH by (intros y Hy; apply Hfg; now right). reflexivity.
Qed.

(** ** Factoring and paramodulation: the properties *)

Lemma literals_apply_unifier_to_clause subs :
  forall c,
    literals (apply_unifier_to_clause subs c)
    = map (apply_unifier_to_literal subs) (literals c).
Proof.
  unfold apply_unifier_to_clause.
  induction subs as [| s subs IH]; intros c; cbn [fold_left].
  - destruct c as [lits ? ? ?]. cbn. rewrite <- (map_id lits) at 1.
    apply map_ext. now intros [n a].
  - rewrite IH. cbn [substitute_in_clause literals]. rewrite map_map.
    apply map_ext. now intros [n a].
Qed.

Lemma provenance_apply_unifier_to_clause subs :
  forall c,
    label (apply_unifier_to_clause subs c) = label c
    /\ inference_parents (apply_unifier_to_clause subs c)
       = inference_parents c
    /\ inference_rule (apply_unifier_to_clause subs c) = inference_rule c.
Proof.
  unfold apply_unifier_to_clause.
  induction subs as [| s subs IH]; intros c; cbn [fold_left]; [auto |].
  destruct (IH (substitute_in_clause s c)) as (-> & -> & ->). auto.
Qed.

Section InferenceFacts.
Context {order : SetOrder}.
Variable EQUALITY_SYMBOL_ID : Z.

(** [factoring] on two positive literals: the unifier of the two atoms
    decides. *)
Lemma factoring_positive given_clause literal_one literal_two :
  negated literal_one = false ->
  negated literal_two = false ->
  (exists subs,
      most_general_unifier [atom literal_one; atom literal_two] = Ret subs
      /\ factoring given_clause literal_one literal_two
         = Ret (mkClause
                  (map (apply_unifier_to_literal subs)
                       (literals given_clause ++ [literal_one]))
                  None None None))
  \/ (exists p q,
         most_general_unifier [atom literal_one; atom literal_two]
         = Raise (NonUnifiableError p q)
         /\ factoring given_clause literal_one literal_two
            = Raise (NonUnifiableError p q)).
Proof.
  intros N1 N2. unfold factoring. rewrite N1, N2. cbn [orb].
  destruct (most_general_unifier_outcome
              [atom literal_one; atom literal_two])
    as [[subs E] | (p & q & E)]; [discriminate | |]; rewrite E; cbn [bind].
  - left. exists subs. split; [reflexivity |]. f_equal.
    pose proof (literals_apply_unifier_to_clause subs
                  (Clause_of (literals given_clause ++ [literal_one])))
      as Hl.
    destruct (provenance_apply_unifier_to_clause subs
                (Clause_of (literals given_clause ++ [literal_one])))
      as (H1 & H2 & H3).
    destruct (apply_unifier_to_clause subs _) as [l0 l1 l2 l3].
    cbn in *. congruence.
  - right. now exists p, q.
Qed.

(** C3. [factoring] raises [ValueError] exactly when one of the two
    literals is negated. When both are positive it computes the unifier of
    the two atoms: if there is none the [NonUnifiableError] is passed on,
    and otherwise the result is the clause of the given clause's literals
    followed by the first literal, with every binding applied in order and
    no provenance. *)
Theorem factoring_spec given_clause literal_one literal_two :
  ((exists m, factoring given_clause literal_one literal_two
              = Raise (ValueError m))
   <-> negated literal_one = true \/ negated literal_two = true)
  /\ (negated literal_one = false ->
      negated literal_two = false ->
      (exists subs,
          most_general_unifier [atom literal_one; atom literal_two]
          = Ret subs
          /\ factoring given_clause literal_one literal_two
             = Ret (mkClause
                      (map (apply_unifier_to_literal subs)
                           (literals given_clause ++ [literal_one]))
                      None None None))
      \/ (exists p q,
             most_general_unifier [atom literal_one; atom literal_two]
             = Raise (NonUnifiableError p q)
             /\ factoring given_clause literal_one literal_two
                = Raise (NonUnifiableError p q))).
Proof.
  split; [| apply factoring_positive].
  destruct (negated literal_one) eqn:N1.
  { unfold factoring. rewrite N1. cbn. split; [auto | now eexists]. }
  destruct (negated literal_two) eqn:N2.
  { unfold factoring. rewrite N1, N2. cbn. split; [auto | now eexists]. }
  split; [| intros [H | H]; discriminate].
  intros [m Hm].
  destruct (factoring_positive given_clause _ _ N1 N2)
    as [(subs & _ & E) | (p & q & _ & E)]; rewrite E in Hm; discriminate.
Qed.

(** C5. [all_paramodulants_from_clause] raises [ValueError] when its
    equality literal is negated, when the index of its atom is not the
    equality symbol, and when its atom does not carry exactly two
    arguments; it returns the empty sequence when the literal is a positive
    equality whose two arguments are structurally equal. *)
Theorem all_paramodulants_from_clause_precondition
  clause_one literal_one clause_two literal_two :
  (negated literal_one = true
   \/ index_of (atom literal_one) <> EQUALITY_SYMBOL_ID
   \/ (exists args, arguments_of (atom literal_one) = Some args
                    /\ length args <> 2%nat) ->
   exists m,
     all_paramodulants_from_clause EQUALITY_SYMBOL_ID
       clause_one literal_one clause_two literal_two
     = Raise (ValueError m))
  /\ (forall s,
         negated literal_one = false ->
         index_of (atom literal_one) = EQUALITY_SYMBOL_ID ->
         arguments_of (atom literal_one) = Some [s; s] ->
         all_paramodulants_from_clause EQUALITY_SYMBOL_ID
           clause_one literal_one clause_two literal_two
         = Ret []).
Proof.
  unfold all_paramodulants_from_clause, not_an_equality. split.
  - intros H.
    destruct (Z.eqb_spec (index_of (atom literal_one)) EQUALITY_SYMBOL_ID)
      as [Ei | Ni]; cbn [negb]; [| cbn; now eexists].
    destruct (negated literal_one) eqn:N; [cbn; now eexists |].
    destruct H as [H | [H | (args & Ea & Hlen)]];
      [discriminate | contradiction |].
    rewrite Ea. destruct (Nat.eqb_spec (length args) 2); [contradiction |].
    cbn. now eexists.
  - intros s N Ei Ea. rewrite Ei, Z.eqb_refl, N, Ea. cbn.
    unfold argument_at. rewrite Ea. cbn.
    now rewrite prop_eqb_refl.
Qed.

End InferenceFacts.

(** ** Sub-term positions *)

Lemma subterms_length p : length (subterms p) = proposition_length p.
Proof.
  induction p as [i | i args IH | i args IH] using Proposition_ind';
    cbn; [reflexivity | |]; f_equal;
    induction IH as [| x l Hx _ IHl]; cbn; try reflexivity;
    rewrite length_app, Hx, IHl; reflexivity.
Qed.

Lemma subterm_by_index_in_range p k :
  (k < proposition_length p)%nat ->
  exists r, subterm_by_index p k = Ret r.
Proof.
  intros Hlt. unfold subterm_by_index.
  destruct (nth_error (subterms p) k) as [r |] eqn:E; [now exists r |].
  apply nth_error_None in E. rewrite subterms_length in E. lia.
Qed.

(** ** Sets with one element, and images of duplicate-free sequences *)

Lemma NoDup_map_injective {A B : Type} (f : A -> B) l x y :
  NoDup (map f l) -> In x l -> In y l -> f x = f y -> x = y.
Proof.
  induction l as [| a l IH]; cbn; [intros _ [] |].
  intros Hnd Hx Hy E. inversion Hnd as [| ? ? Hnotin Hnd']. subst.
  destruct Hx as [-> | Hx], Hy as [-> | Hy]; auto.
  - exfalso. apply Hnotin. rewrite E. now apply in_map.
  - exfalso. apply Hnotin. rewrite <- E. now apply in_map.
Qed.

Section ParamodulationFacts.
Context {order : SetOrder}.
Variable EQUALITY_SYMBOL_ID : Z.

Lemma tuple_of_prop_set_same x l :
  l <> [] -> (forall y, In y l -> y = x) -> tuple_of_prop_set l = [x].
Proof.
  intros Hne Hall.
  pose proof (tuple_of_prop_set_NoDup l) as Hnd.
  pose proof (tuple_of_prop_set_In l) as Hin.
  destruct (tuple_of_prop_set l) as [| a [| b L]].
  - destruct l as [| y l]; [congruence |].
    destruct (proj2 (Hin y) (or_introl eq_refl)).
  - f_equal. apply Hall, Hin. now left.
  - exfalso. inversion Hnd as [| ? ? Hnotin _]. apply Hnotin.
    rewrite (Hall a), (Hall b); [now left | |]; apply Hin; cbn; auto.
Qed.

Lemma tuple_of_prop_set_pair x : tuple_of_prop_set [x; x] = [x].
Proof.
  apply tuple_of_prop_set_same; [discriminate |].
  intros y [<- | [<- | []]]; reflexivity.
Qed.

(** At a position inside the atom, [paramodulation] returns or raises one
    of the two exceptions the loop skips. *)
Lemma paramodulation_in_range clause_one s t clause_two literal_two k :
  (k < proposition_length (atom literal_two))%nat ->
  skip_failed_attempt
    (paramodulation clause_one (s, t) clause_two literal_two k)
  = Ret (attempt clause_one s t clause_two literal_two k).
Proof.
  intros Hlt. unfold attempt, paramodulation, replace_subterm_by_index.
  destruct (subterm_by_index_in_range _ _ Hlt) as [r ->]. cbn [bind fst snd].
  destruct (most_general_unifier_outcome [s; r]) as [[subs ->] | (p & q & ->)];
    [discriminate | |]; cbn [bind skip_failed_attempt]; [| reflexivity].
  destruct (prop_eqb r t); reflexivity.
Qed.

(** C4. With the processed clause [a = b | X = X] and the given clause
    [b = c], where [a], [b], [c] are three different constants,
    [all_paramodulants_from_list] returns exactly six clauses, whatever the
    iteration order of sets, the index of the equality symbol and the
    indices of the symbols. And on a positive equality with
    two different sides [s] and [t], [all_paramodulants_from_clause] goes
    through the positions 1 to size - 1 of the atom of the other literal,
    tries each one with [(s, t)] and then with [(t, s)], and keeps the
    attempts that return. *)
Theorem paramodulation_positions :
  (forall a b c x,
      a <> b -> b <> c -> a <> c ->
      exists res,
        all_paramodulants_from_list EQUALITY_SYMBOL_ID
          [example_one EQUALITY_SYMBOL_ID a b x]
          (example_two EQUALITY_SYMBOL_ID b c)
        = Ret res
        /\ length res = 6%nat)
  /\ (forall clause_one literal_one clause_two literal_two s t,
         negated literal_one = false ->
         index_of (atom literal_one) = EQUALITY_SYMBOL_ID ->
         arguments_of (atom literal_one) = Some [s; t] ->
         s <> t ->
         all_paramodulants_from_clause EQUALITY_SYMBOL_ID
           clause_one literal_one clause_two literal_two
         = Ret (flat_map
                  (fun k =>
                     attempt clause_one s t clause_two literal_two k
                     ++ attempt clause_one t s clause_two literal_two k)
                  (seq 1 (proposition_length (atom literal_two) - 1)))).
Proof.
  split.
  - intros a b c x Hab Hbc Hac.
    assert (Eab : Z.eqb a b = false) by now apply Z.eqb_neq.
    assert (Eba : Z.eqb b a = false) by now apply Z.eqb_neq.
    assert (Ebc : Z.eqb b c = false) by now apply Z.eqb_neq.
    assert (Ecb : Z.eqb c b = false) by now apply Z.eqb_neq.
    assert (Eac : Z.eqb a c = false) by now apply Z.eqb_neq.
    assert (Eca : Z.eqb c a = false) by now apply Z.eqb_neq.
    unfold all_paramodulants_from_list, example_one, example_two.
    repeat (progress
              (unfold get_new_paramodulants, all_paramodulants_from_clause,
                 not_an_equality, equality_symmetry_paramodulation,
                 paramodulation, argument_at, most_general_unifier,
                 subterm_by_index, replace_subterm_by_index;
               cbn;
               rewrite ?Z.eqb_refl, ?Eab, ?Eba, ?Ebc, ?Ecb, ?Eac, ?Eca,
                 ?tuple_of_prop_set_pair)).
    eexists. split; reflexivity.
  - intros c1 l1 c2 l2 s t N Ei Ea Hne.
    unfold all_paramodulants_from_clause, not_an_equality, argument_at.
    rewrite Ei, Z.eqb_refl, N, Ea. cbn.
    destruct (prop_eqb s t) eqn:E; [apply prop_eqb_eq in E; contradiction |].
    apply (collect_Ret_flat_map
             (equality_symmetry_paramodulation c1 l1 c2 l2)
             (fun k => attempt c1 s t c2 l2 k ++ attempt c1 t s c2 l2 k)).
    intros k Hk. apply in_seq in Hk.
    unfold equality_symmetry_paramodulation, argument_at.
    rewrite Ea. cbn [nth_error bind].
    rewrite !paramodulation_in_range by lia. reflexivity.
Qed.


End ParamodulationFacts.

(** ** The duplicates that stay *)

(** Whatever the iteration order of sets: [factoring] on the clause
    [q(X) | q(a)] with the literals [p(X)] and [p(a)], and [paramodulation]
    of [X = b] into the literal [p(a)] at position 1 with the side clauses
    [q(X)] and [q(a)], both bind [X] to [a] and return a clause in which
    [q(a)] occurs twice. *)
Lemma duplicates_for_every_order {order : SetOrder} :
  (exists r,
      factoring (Clause_of [example_q (MkVariable 0);
                            example_q (MkFunction 0 [])])
        (example_p (MkVariable 0)) (example_p (MkFunction 0 []))
      = Ret r
      /\ ~ NoDup (literals r))
  /\ (exists r,
         paramodulation (Clause_of [example_q (MkVariable 0)])
           (MkVariable 0, MkFunction 1 [])
           (Clause_of [example_q (MkFunction 0 [])])
           (example_p (MkFunction 0 [])) 1
         = Ret r
         /\ ~ NoDup (literals r)).
Proof.
  unfold example_p, example_q. split.
  - unfold factoring, most_general_unifier. cbn.
    rewrite tuple_of_prop_set_pair. cbn.
    eexists. split; [reflexivity |]. cbn.
    intros Hnd. inversion Hnd as [| ? ? Hnotin _]. apply Hnotin. now left.
  - unfold paramodulation, most_general_unifier, subterm_by_index,
      replace_subterm_by_index. cbn.
    rewrite tuple_of_prop_set_pair. cbn.
    eexists. split; [reflexivity |]. cbn.
    intros Hnd.
    assert (E : mkLiteral false (MkPredicate 2 [MkVariable 0])
                = mkLiteral false (MkPredicate 2 [MkFunction 0 []]));
      [| discriminate].
    apply (NoDup_map_injective _ _ _ _ Hnd); [| | reflexivity];
      apply tuple_of_literal_set_In; cbn; auto.
Qed.


(** ** [all_possible_factors] always returns *)

(** X14. [all_possible_factors] never raises: the [ValueError] of
    [factoring] is out of reach behind the test on the two signs, every
    [NonUnifiableError] is caught, and no index is out of range. *)
Theorem all_possible_factors_total {order : SetOrder} given_clause :
  exists res, all_possible_factors given_clause = Ret res.
Proof.
  unfold all_possible_factors.
  assert (H : exists factors, possible_factors given_clause = Ret factors).
  { unfold possible_factors. apply collect_total. intros [i l1] _.
    apply collect_total. intros j Hj. apply in_seq in Hj.
    destruct (nth_error (literals given_clause) j) as [l2 |] eqn:E.
    - destruct (negated l1) eqn:N1; cbn [negb andb]; [now eexists |].
      destruct (negated l2) eqn:N2; cbn [negb andb]; [now eexists |].
      match goal with
      | |- context [factoring ?c l1 l2] =>
          destruct (factoring_positive c l1 l2 N1 N2)
            as [(subs & _ & ->) | (u & v & _ & ->)]
      end; cbn; now eexists.
    - apply nth_error_None in E. lia. }
  destruct H as [factors ->]. cbn. now eexists.
Qed.

(** ** The documented examples, under the first-seen order *)

Lemma most_general_unifier_sound_witness :
  @most_general_unifier first_seen_order [doctest_one; doctest_two]
  = Ret doctest_unifier
  /\ apply_unifier doctest_unifier doctest_one
     = apply_unifier doctest_unifier doctest_two.
Proof.
  split; [reflexivity |].
  apply (@most_general_unifier_sound first_seen_order). reflexivity.
Defined.

Lemma most_general_unifier_terminates_witness :
  @mgu_step first_seen_order [doctest_one; doctest_two]
  = Some (mkSubstitution (MkVariable 0) (MkVariable 4),
          [MkPredicate 8
             [MkVariable 4; MkVariable 1; MkFunction 0 [MkVariable 2]];
           doctest_two])
  /\ (count_variables
        [MkPredicate 8
           [MkVariable 4; MkVariable 1; MkFunction 0 [MkVariable 2]];
         doctest_two]
      < count_variables [doctest_one; doctest_two])%nat.
Proof.
  split; [reflexivity |].
  apply (proj1 (@most_general_unifier_terminates first_seen_order
                  [doctest_one; doctest_two])
           (mkSubstitution (MkVariable 0) (MkVariable 4))).
  reflexivity.
Defined.

Lemma most_general_unifier_no_reintroduction_witness :
  @most_general_unifier first_seen_order [doctest_one; doctest_two]
  = Ret doctest_unifier
  /\ is_subproposition (MkVariable 0) (MkFunction 0 [MkVariable 2]) = false.
Proof.
  split; [reflexivity |].
  apply (@most_general_unifier_no_reintroduction first_seen_order
           [doctest_one; doctest_two] doctest_unifier eq_refl 0%nat 2%nat
           (mkSubstitution (MkVariable 0) (MkVariable 4))
           (mkSubstitution (MkVariable 5) (MkFunction 0 [MkVariable 2])));
    [lia | reflexivity | reflexivity].
Defined.

Lemma most_general_unifier_empty_witness :
  [doctest_one; doctest_two] <> []
  /\ ((exists subs,
          @most_general_unifier first_seen_order [doctest_one; doctest_two]
          = Ret subs)
      \/ (exists p q,
             @most_general_unifier first_seen_order
               [doctest_one; doctest_two]
             = Raise (NonUnifiableError p q))).
Proof.
  split; [discriminate |].
  apply (proj2 (@most_general_unifier_empty first_seen_order)).
  discriminate.
Defined.

Lemma factoring_spec_witness :
  negated doctest_literal_one = false
  /\ negated doctest_literal_two = false
  /\ @factoring first_seen_order
       doctest_clause doctest_literal_one doctest_literal_two
     = Ret (Clause_of
              [mkLiteral true (MkPredicate 8 [MkFunction 0 []]);
               mkLiteral false (MkPredicate 9 [MkFunction 0 []])]).
Proof.
  split; [reflexivity |]. split; [reflexivity |].
  destruct (proj2 (@factoring_spec first_seen_order doctest_clause
                     doctest_literal_one doctest_literal_two)
              eq_refl eq_refl)
    as [(subs & Hm & Hf) | (p & q & Hm & _)].
  - rewrite Hf. vm_compute in Hm. injection Hm as <-. reflexivity.
  - vm_compute in Hm. discriminate Hm.
Defined.

Lemma all_paramodulants_from_clause_precondition_witness :
  (exists m,
      @all_paramodulants_from_clause first_seen_order 0
        (Clause_of []) (mkLiteral false (MkPredicate 0 [MkFunction 1 []]))
        (Clause_of []) (mkLiteral true (MkPredicate 3 []))
      = Raise (ValueError m))
  /\ @all_paramodulants_from_clause first_seen_order 0
       (Clause_of []) (mkLiteral false (MkPredicate 0 [MkVariable 0; MkVariable 0]))
       (Clause_of []) (mkLiteral true (MkPredicate 3 []))
     = Ret [].
Proof.
  split.
  - apply (proj1 (@all_paramodulants_from_clause_precondition
                    first_seen_order 0 (Clause_of [])
                    (mkLiteral false (MkPredicate 0 [MkFunction 1 []]))
                    (Clause_of []) (mkLiteral true (MkPredicate 3 [])))).
    right. right. exists [MkFunction 1 []]. split; [reflexivity |].
    cbn. lia.
  - apply (proj2 (@all_paramodulants_from_clause_precondition
                    first_seen_order 0 (Clause_of [])
                    (mkLiteral false
                       (MkPredicate 0 [MkVariable 0; MkVariable 0]))
                    (Clause_of []) (mkLiteral true (MkPredicate 3 [])))
             (MkVariable 0)); reflexivity.
Defined.

Lemma paramodulation_positions_witness :
  (exists res,
      @all_paramodulants_from_list first_seen_order 0
        [example_one 0 0 1 0] (example_two 0 1 2)
      = Ret res
      /\ length res = 6%nat)
  /\ negated (example_equality 0 1) = false
  /\ MkFunction 0 [] <> MkFunction 1 []
  /\ @all_paramodulants_from_clause first_seen_order 0
       (Clause_of []) (example_equality 0 1)
       (Clause_of []) (example_equality 1 2)
     = Ret [Clause_of [example_equality 0 2]].
Proof.
  split.
  { apply (proj1 (@paramodulation_positions first_seen_order 0) 0 1 2 0);
      discriminate. }
  split; [reflexivity |]. split; [discriminate |].
  rewrite (proj2 (@paramodulation_positions first_seen_order 0)
             (Clause_of []) (example_equality 0 1)
             (Clause_of []) (example_equality 1 2)
             (MkFunction 0 []) (MkFunction 1 [])
             eq_refl eq_refl eq_refl);
    [reflexivity | discriminate].
Defined.


(** ** The outputs the docstrings show *)

(** [most_general_unifier((Variable(0), Variable(0)))] is [()]. *)
Example doctest_equal_pair {order : SetOrder} :
  most_general_unifier [MkVariable 0; MkVariable 0] = Ret [].
Proof. reflexivity. Qed.

(** [most_general_unifier((Variable(0), Function(7, (Variable(0),))))]
    raises [NonUnifiableError]: the occurs-check. *)
Example doctest_occurs_check {order : SetOrder} :
  most_general_unifier [MkVariable 0; MkFunction 7 [MkVariable 0]]
  = Raise (NonUnifiableError (MkVariable 0) (MkFunction 7 [MkVariable 0])).
Proof. reflexivity. Qed.

(** [factoring] with a negated second literal raises [ValueError], with
    the message of the docstring. *)
Example doctest_factoring_negated {order : SetOrder} :
  factoring (Clause_of []) (mkLiteral false (MkPredicate 8 []))
    (mkLiteral true (MkPredicate 7 []))
  = Raise (ValueError
             ("factoring is not possible for "
              ++ "Literal(negated=False, atom=Predicate(index=8, arguments=()))"
              ++ " and "
              ++ "Literal(negated=True, atom=Predicate(index=7, arguments=()))")%string).
Proof. reflexivity. Qed.

(** The three literals of the example of [paramodulation]. *)
Example doctest_paramodulation :
  @paramodulation first_seen_order
    (Clause_of [mkLiteral false (MkPredicate 8 [MkVariable 0])])
    (MkVariable 0, MkFunction 7 [])
    (Clause_of [mkLiteral false (MkPredicate 9 [MkVariable 0])])
    (mkLiteral true (MkPredicate 10 [MkFunction 0 []])) 1
  = Ret (Clause_of
           [mkLiteral true (MkPredicate 10 [MkFunction 7 []]);
            mkLiteral false (MkPredicate 8 [MkFunction 0 []]);
            mkLiteral false (MkPredicate 9 [MkFunction 0 []])]).
Proof. reflexivity. Qed.

(** [all_paramodulants_from_list] on a positive literal of the equality
    symbol with one argument raises [ValueError]. *)
Example doctest_expected_equality {order : SetOrder} (EQUALITY_SYMBOL_ID : Z) :
  all_paramodulants_from_list EQUALITY_SYMBOL_ID
    [mkClause
       [mkLiteral false (MkPredicate EQUALITY_SYMBOL_ID [MkFunction 1 []])]
       (Some "one"%string) None None]
    (mkClause [mkLiteral true (MkPredicate 3 [])]
       (Some "two"%string) None None)
  = Raise (ValueError
             ("expected equality, but got "
              ++ repr_literal
                   (mkLiteral false
                      (MkPredicate EQUALITY_SYMBOL_ID [MkFunction 1 []])))%string).
Proof.
  unfold all_paramodulants_from_list, get_new_paramodulants,
    all_paramodulants_from_clause, not_an_equality.
  cbn [collect literals enumerate length seq combine bind negated atom
       index_of negb andb arguments_of].
  rewrite Z.eqb_refl. reflexivity.
Qed.

(** ** Arbitrary unifiers against the one the code computes *)

Lemma apply_unifier_Function subs :
  forall i args,
    apply_unifier subs (MkFunction i args)
    = MkFunction i (map (apply_unifier subs) args).
Proof.
  unfold apply_unifier.
  induction subs as [| s subs IH]; intros i args; cbn [fold_left].
  - now rewrite map_id.
  - cbn [substitute]. rewrite IH, map_map. reflexivity.
Qed.

Lemma apply_unifier_Predicate subs :
  forall i args,
    apply_unifier subs (MkPredicate i args)
    = MkPredicate i (map (apply_unifier subs) args).
Proof.
  unfold apply_unifier.
  induction subs as [| s subs IH]; intros i args; cbn [fold_left].
  - now rewrite map_id.
  - cbn [substitute]. rewrite IH, map_map. reflexivity.
Qed.

Lemma apply_unifier_cons s subs p :
  apply_unifier (s :: subs) p = apply_unifier subs (substitute s p).
Proof. reflexivity. Qed.

Lemma apply_unifier_app subs1 subs2 p :
  apply_unifier (subs1 ++ subs2) p
  = apply_unifier subs2 (apply_unifier subs1 p).
Proof. unfold apply_unifier. apply fold_left_app. Qed.

(** Bindings of terms send terms to terms. *)
Lemma apply_unifier_term subs :
  binds_terms subs ->
  forall p, is_Variable_or_Function p = true ->
            is_Variable_or_Function (apply_unifier subs p) = true.
Proof.
  induction 1 as [| s subs Hs _ IH]; intros p Hp; [exact Hp |].
  rewrite apply_unifier_cons. apply IH.
  destruct p as [i | i args | i args]; [| reflexivity | discriminate].
  cbn [substitute].
  destruct (prop_eqb (MkVariable i) (variable s)); [exact Hs | reflexivity].
Qed.

Lemma list_sum_In_le {A : Type} (f : A -> nat) l a :
  In a l -> (f a <= list_sum (map f l))%nat.
Proof.
  induction l as [| b l IH]; cbn [In map list_sum]; [intros [] |].
  intros [-> | Hin]; [apply Nat.le_add_r |].
  specialize (IH Hin). apply (Nat.le_trans _ _ _ IH), Nat.le_add_l.
Qed.

(** A variable that occurs in a proposition other than itself gives a
    strictly smaller instance. *)
Lemma occurrence_instance_smaller subs x t :
  In x (variables_of t) ->
  t = MkVariable x
  \/ (proposition_length (apply_unifier subs (MkVariable x))
      < proposition_length (apply_unifier subs t))%nat.
Proof.
  induction t as [i | i args IH | i args IH] using Proposition_ind'.
  - cbn. intros [-> | []]. now left.
  - cbn [variables_of]. rewrite in_flat_map. intros (a & Hin & Hx). right.
    rewrite apply_unifier_Function. cbn [proposition_length].
    rewrite map_map.
    pose proof (list_sum_In_le
                  (fun p => proposition_length (apply_unifier subs p))
                  args a Hin) as Hle.
    rewrite Forall_forall in IH.
    destruct (IH a Hin Hx) as [-> | Hlt]; lia.
  - cbn [variables_of]. rewrite in_flat_map. intros (a & Hin & Hx). right.
    rewrite apply_unifier_Predicate. cbn [proposition_length].
    rewrite map_map.
    pose proof (list_sum_In_le
                  (fun p => proposition_length (apply_unifier subs p))
                  args a Hin) as Hle.
    rewrite Forall_forall in IH.
    destruct (IH a Hin Hx) as [-> | Hlt]; lia.
Qed.

Lemma zip_disagreement_unified subs l1 :
  Forall (fun p => forall q a b,
              get_disagreement p q = Some (a, b) ->
              apply_unifier subs p = apply_unifier subs q ->
              apply_unifier subs a = apply_unifier subs b) l1 ->
  forall l2 a b,
    zip_disagreement l1 l2 = Some (a, b) ->
    map (apply_unifier subs) l1 = map (apply_unifier subs) l2 ->
    apply_unifier subs a = apply_unifier subs b.
Proof.
  induction 1 as [| x l Hx _ IH]; intros [| y l2] a b; cbn;
    try discriminate.
  intros Hz [= Exy El].
  destruct (get_disagreement x y) as [d |] eqn:E.
  - injection Hz as ->. now apply (Hx y).
  - now apply (IH l2).
Qed.

(** A unifier of two propositions unifies their disagreement pair. *)
Lemma get_disagreement_unified subs p :
  forall q a b,
    get_disagreement p q = Some (a, b) ->
    apply_unifier subs p = apply_unifier subs q ->
    apply_unifier subs a = apply_unifier subs b.
Proof.
  induction p as [i | i args IH | i args IH] using Proposition_ind';
    intros [j | j a2 | j a2] a b;
    try (cbn [get_disagreement]; intros [= <- <-]; auto; fail).
  - cbn. destruct (negb (i =? j)); [| discriminate].
    now intros [= <- <-].
  - rewrite get_disagreement_Function.
    destruct (negb (i =? j) || negb (length args =? length a2)%nat).
    + now intros [= <- <-].
    + rewrite !apply_unifier_Function. intros Hz [= _ El].
      now apply (zip_disagreement_unified subs args IH a2).
  - rewrite get_disagreement_Predicate.
    destruct (negb (i =? j) || negb (length args =? length a2)%nat).
    + now intros [= <- <-].
    + rewrite !apply_unifier_Predicate. intros Hz [= _ El].
      now apply (zip_disagreement_unified subs args IH a2).
Qed.

Lemma zip_disagreement_roots l1 :
  Forall (fun p => forall q a b,
              get_disagreement p q = Some (a, b) -> roots_differ a b) l1 ->
  forall l2 a b, zip_disagreement l1 l2 = Some (a, b) -> roots_differ a b.
Proof.
  induction 1 as [| x l Hx _ IH]; intros [| y l2] a b; cbn;
    try discriminate.
  destruct (get_disagreement x y) as [d |] eqn:E.
  - intros [= ->]. now apply (Hx y).
  - apply IH.
Qed.

(** The two sides of a disagreement pair differ at their roots. *)
Lemma get_disagreement_roots p :
  forall q a b, get_disagreement p q = Some (a, b) -> roots_differ a b.
Proof.
  induction p as [i | i args IH | i args IH] using Proposition_ind';
    intros [j | j a2 | j a2] a b;
    try (cbn [get_disagreement]; intros [= <- <-]; exact I).
  - cbn. destruct (Z.eqb_spec i j); cbn; [discriminate |].
    now intros [= <- <-].
  - rewrite get_disagreement_Function.
    destruct (Z.eqb_spec i j); cbn [negb orb].
    + destruct (Nat.eqb_spec (length args) (length a2)); cbn [negb].
      * now apply zip_disagreement_roots.
      * intros [= <- <-]. now right.
    + intros [= <- <-]. now left.
  - rewrite get_disagreement_Predicate.
    destruct (Z.eqb_spec i j); cbn [negb orb].
    + destruct (Nat.eqb_spec (length args) (length a2)); cbn [negb].
      * now apply zip_disagreement_roots.
      * intros [= <- <-]. now right.
    + intros [= <- <-]. now left.
Qed.

(** A binding whose two sides a unifier makes equal is absorbed by that
    unifier. *)
Lemma unifier_absorbs_binding subs s :
  apply_unifier subs (variable s) = apply_unifier subs (term s) ->
  forall p, apply_unifier subs (substitute s p) = apply_unifier subs p.
Proof.
  intros E.
  induction p as [i | i args IH | i args IH] using Proposition_ind'.
  - cbn [substitute].
    destruct (prop_eqb (MkVariable i) (variable s)) eqn:Ev; [| reflexivity].
    apply prop_eqb_eq in Ev. rewrite Ev. symmetry. exact E.
  - cbn [substitute]. rewrite !apply_unifier_Function, map_map. f_equal.
    apply map_ext_in. rewrite Forall_forall in IH. exact IH.
  - cbn [substitute]. rewrite !apply_unifier_Predicate, map_map. f_equal.
    apply map_ext_in. rewrite Forall_forall in IH. exact IH.
Qed.

(** The occurs-check cannot reject a pair that has a unifier. *)
Lemma occurs_check_passes subs x t :
  t <> MkVariable x ->
  apply_unifier subs (MkVariable x) = apply_unifier subs t ->
  is_subproposition (MkVariable x) t = false.
Proof.
  intros Hne E. apply is_subproposition_variable_false. intros Hin.
  destruct (occurrence_instance_smaller subs x t Hin) as [-> | Hlt];
    [congruence |].
  rewrite E in Hlt. lia.
Qed.

(** On a pair that differs at the roots and has a unifier made of bindings
    of terms, [propose_substitution] returns a binding, and the unifier
    makes its two sides equal. *)
Lemma propose_substitution_unifiable subs props a b :
  binds_terms subs ->
  roots_differ a b ->
  apply_unifier subs a = apply_unifier subs b ->
  exists s, propose_substitution (a, b) props = Ret s
            /\ apply_unifier subs (variable s) = apply_unifier subs (term s).
Proof.
  intros Hb Hr E. unfold propose_substitution. cbn [fst snd].
  destruct a as [i | i a1 | i a1], b as [j | j a2 | j a2];
    cbn [is_Variable is_Variable_or_Function andb variable term].
  - cbn in Hr. rewrite (occurs_check_passes subs i (MkVariable j));
      [now eexists | congruence | exact E].
  - rewrite (occurs_check_passes subs i (MkFunction j a2));
      [now eexists | discriminate | exact E].
  - exfalso.
    pose proof (apply_unifier_term subs Hb (MkVariable i) eq_refl) as Ht.
    rewrite E, apply_unifier_Predicate in Ht. discriminate.
  - rewrite (occurs_check_passes subs j (MkFunction i a1));
      [now eexists | discriminate | now symmetry].
  - exfalso. rewrite !apply_unifier_Function in E. injection E as Ei El.
    apply (f_equal (@length _)) in El. rewrite !length_map in El.
    cbn in Hr. tauto.
  - exfalso. rewrite apply_unifier_Function, apply_unifier_Predicate in E.
    discriminate.
  - exfalso.
    pose proof (apply_unifier_term subs Hb (MkVariable j) eq_refl) as Ht.
    rewrite <- E, apply_unifier_Predicate in Ht. discriminate.
  - exfalso. rewrite apply_unifier_Function, apply_unifier_Predicate in E.
    discriminate.
  - exfalso. rewrite !apply_unifier_Predicate in E. injection E as Ei El.
    apply (f_equal (@length _)) in El. rewrite !length_map in El.
    cbn in Hr. tauto.
Qed.

Section GeneralUnifiers.
Context {order : SetOrder}.

(** A step of the loop under a unifier of the whole set: the step is taken,
    the unifier absorbs its binding and still unifies the rewritten set. *)
Lemma mgu_step_unifiable subs p0 p1 tl d :
  binds_terms subs ->
  unifies_all subs (p0 :: p1 :: tl) ->
  get_disagreement p0 p1 = Some d ->
  exists s props',
    mgu_step (p0 :: p1 :: tl) = Some (s, props')
    /\ apply_unifier subs (variable s) = apply_unifier subs (term s)
    /\ unifies_all subs props'
    /\ props' <> [].
Proof.
  intros Hb Hu Hd. destruct d as [a b].
  assert (E : apply_unifier subs a = apply_unifier subs b).
  { apply (get_disagreement_unified subs _ _ _ _ Hd).
    apply Hu; cbn; auto. }
  destruct (propose_substitution_unifiable subs (p0 :: p1 :: tl) a b Hb
              (get_disagreement_roots _ _ _ _ Hd) E) as (s & Hs & Es).
  exists s. eexists. unfold mgu_step. rewrite Hd, Hs.
  split; [reflexivity |]. split; [exact Es |]. split.
  - intros p q Hp Hq.
    apply tuple_of_prop_set_In, in_map_iff in Hp, Hq.
    destruct Hp as (p' & <- & Hp), Hq as (q' & <- & Hq).
    rewrite !(unifier_absorbs_binding subs s Es). now apply Hu.
  - intros En.
    assert (Hin : In (substitute s p0)
                     (tuple_of_prop_set
                        (map (substitute s) (p0 :: p1 :: tl))))
      by (apply tuple_of_prop_set_In; now left).
    rewrite En in Hin. destruct Hin.
Qed.

(** With a unifier of the whole set at hand the loop returns. *)
Lemma mgu_fuel_unifiable subs fuel :
  binds_terms subs ->
  forall props acc,
    unifies_all subs props ->
    props <> [] ->
    (count_variables props < fuel)%nat ->
    exists res, mgu_fuel fuel props acc = Ret res.
Proof.
  intros Hb. induction fuel as [| fuel IH]; intros props acc Hu Hne Hlt;
    [lia |].
  destruct props as [| p0 [| p1 tl]]; [congruence | now eexists |].
  destruct (get_disagreement p0 p1) as [d |] eqn:Hd.
  - destruct (mgu_step_unifiable subs p0 p1 tl d Hb Hu Hd)
      as (s & props' & Hs & _ & Hu' & Hne').
    rewrite (mgu_fuel_step _ _ _ _ _ Hs).
    pose proof (mgu_step_decreases _ _ _ Hs) as Hdec.
    apply IH; [assumption | assumption | lia].
  - cbn [mgu_fuel]. rewrite Hd. now eexists.
Qed.

(** Along a returned run, a unifier of the first set absorbs all the
    bindings of the run. *)
Lemma mgu_trace_absorbed subs props rest :
  mgu_trace props rest ->
  binds_terms subs ->
  unifies_all subs props ->
  forall p, apply_unifier subs (apply_unifier rest p) = apply_unifier subs p.
Proof.
  induction 1 as [p0 | props s props' rest Hs _ IH]; intros Hb Hu p;
    [reflexivity |].
  assert (Hs' := Hs). unfold mgu_step in Hs'.
  destruct props as [| p0 [| p1 tl]]; try discriminate.
  destruct (get_disagreement p0 p1) as [d |] eqn:Hd; [| discriminate].
  destruct (mgu_step_unifiable subs p0 p1 tl d Hb Hu Hd)
    as (s0 & props0 & Hs0 & Es & Hu' & _).
  rewrite Hs in Hs0. injection Hs0 as <- <-.
  rewrite apply_unifier_cons, (IH Hb Hu').
  apply unifier_absorbs_binding, Es.
Qed.

(** The bindings of a returned run are bindings of terms. *)
Lemma mgu_trace_binds_terms props rest :
  mgu_trace props rest -> binds_terms rest.
Proof.
  induction 1 as [p0 | props s props' rest Hs _ IH]; [constructor |].
  constructor; [| exact IH].
  destruct (mgu_step_inv _ _ _ Hs) as (x & t & -> & _ & _ & _ & Ht & _).
  exact Ht.
Qed.

End GeneralUnifiers.

(** ** More about the disagreement pair *)

Lemma zip_disagreement_refl l :
  Forall (fun p => get_disagreement p p = None) l ->
  zip_disagreement l l = None.
Proof.
  induction 1 as [| x l Hx _ IH]; cbn; [reflexivity |]. now rewrite Hx.
Qed.

Lemma get_disagreement_refl p : get_disagreement p p = None.
Proof.
  induction p as [i | i args IH | i args IH] using Proposition_ind'.
  - cbn. now rewrite Z.eqb_refl.
  - rewrite get_disagreement_Function, Z.eqb_refl, Nat.eqb_refl. cbn.
    now apply zip_disagreement_refl.
  - rewrite get_disagreement_Predicate, Z.eqb_refl, Nat.eqb_refl. cbn.
    now apply zip_disagreement_refl.
Qed.

Lemma is_subproposition_refl p : is_subproposition p p = true.
Proof.
  destruct p; cbn [is_subproposition]; now rewrite prop_eqb_refl.
Qed.

Lemma is_subproposition_argument a p args :
  In p args ->
  is_subproposition a p = true ->
  existsb (is_subproposition a) args = true.
Proof.
  intros Hin Ha. apply existsb_exists. now exists p.
Qed.

Lemma zip_disagreement_subpropositions l1 :
  Forall (fun p => forall q a b,
              get_disagreement p q = Some (a, b) ->
              is_subproposition a p = true
              /\ is_subproposition b q = true) l1 ->
  forall l2 a b,
    zip_disagreement l1 l2 = Some (a, b) ->
    existsb (is_subproposition a) l1 = true
    /\ existsb (is_subproposition b) l2 = true.
Proof.
  induction 1 as [| x l Hx _ IH]; intros [| y l2] a b; cbn;
    try discriminate.
  destruct (get_disagreement x y) as [d |] eqn:E.
  - intros [= ->]. destruct (Hx _ _ _ E) as [-> ->]. auto.
  - intros Hz. destruct (IH _ _ _ Hz) as [-> ->].
    now rewrite !orb_true_r.
Qed.

Lemma get_disagreement_subpropositions p :
  forall q a b,
    get_disagreement p q = Some (a, b) ->
    is_subproposition a p = true /\ is_subproposition b q = true.
Proof.
  induction p as [i | i args IH | i args IH] using Proposition_ind';
    intros [j | j a2 | j a2] a b;
    try (cbn [get_disagreement]; intros [= <- <-];
         split; apply is_subproposition_refl).
  - cbn [get_disagreement]. destruct (negb (i =? j)); [| discriminate].
    intros [= <- <-]. split; apply is_subproposition_refl.
  - rewrite get_disagreement_Function.
    destruct (negb (i =? j) || negb (length args =? length a2)%nat).
    + intros [= <- <-]. split; apply is_subproposition_refl.
    + intros Hz.
      destruct (zip_disagreement_subpropositions args IH a2 a b Hz)
        as [H1 H2].
      cbn [is_subproposition]. rewrite H1, H2. now rewrite !orb_true_r.
  - rewrite get_disagreement_Predicate.
    destruct (negb (i =? j) || negb (length args =? length a2)%nat).
    + intros [= <- <-]. split; apply is_subproposition_refl.
    + intros Hz.
      destruct (zip_disagreement_subpropositions args IH a2 a b Hz)
        as [H1 H2].
      cbn [is_subproposition]. rewrite H1, H2. now rewrite !orb_true_r.
Qed.

Lemma roots_differ_neq a b : roots_differ a b -> a <> b.
Proof.
  destruct a, b; cbn; intros H E; try discriminate;
    injection E; intros; subst; intuition congruence.
Qed.

(** X1. [_get_disagreement] returns the empty tuple exactly when the two
    propositions are structurally equal. *)
Theorem get_disagreement_equal_iff p q :
  get_disagreement p q = None <-> p = q.
Proof.
  split; [apply get_disagreement_None |].
  intros ->. apply get_disagreement_refl.
Qed.

(** X2. A pair returned by [_get_disagreement] is made of a sub-term of the
    first proposition and a sub-term of the second one that differ already
    at their roots: two variables of different indices, two nodes of the
    same class with different indices or different numbers of arguments, or
    two nodes of different classes. *)
Theorem get_disagreement_pair p q a b :
  get_disagreement p q = Some (a, b) ->
  is_subproposition a p = true
  /\ is_subproposition b q = true
  /\ roots_differ a b
  /\ a <> b.
Proof.
  intros H. destruct (get_disagreement_subpropositions p q a b H) as [Ha Hb].
  pose proof (get_disagreement_roots p q a b H) as Hr.
  repeat split; try assumption. now apply roots_differ_neq.
Qed.

Lemma get_disagreement_pair_witness :
  get_disagreement doctest_one doctest_two
  = Some (MkVariable 0, MkVariable 4)
  /\ is_subproposition (MkVariable 0) doctest_one = true
  /\ is_subproposition (MkVariable 4) doctest_two = true
  /\ roots_differ (MkVariable 0) (MkVariable 4)
  /\ MkVariable 0 <> MkVariable 4.
Proof.
  split; [reflexivity |].
  apply (get_disagreement_pair doctest_one doctest_two). reflexivity.
Defined.

(** ** More about the returned unifier *)

Section ReturnedUnifier.
Context {order : SetOrder}.

Lemma mgu_trace_bindings props rest :
  mgu_trace props rest ->
  forall s, In s rest ->
            exists x, variable s = MkVariable x
                      /\ is_Variable_or_Function (term s) = true
                      /\ is_subproposition (variable s) (term s) = false.
Proof.
  induction 1 as [p0 | props s props' rest Hs _ IH]; intros s0 Hin.
  - destruct Hin.
  - destruct Hin as [<- | Hin]; [| now apply IH].
    destruct (mgu_step_inv _ _ _ Hs) as (x & t & -> & _ & _ & Hocc & Ht & _).
    exists x. cbn. repeat split; try assumption.
    now apply is_subproposition_variable_false.
Qed.

Lemma mgu_trace_distinct props rest :
  mgu_trace props rest -> NoDup (map variable rest).
Proof.
  induction 1 as [p0 | props s props' rest Hs Ht IH]; cbn; constructor;
    [| exact IH].
  destruct (mgu_step_inv _ _ _ Hs) as (x & t & -> & _).
  cbn [variable]. intros Hin. apply in_map_iff in Hin.
  destruct Hin as (s' & Ev & Hin).
  destruct (mgu_trace_variables _ _ Ht _ Hin) as (y & Ey & Hy & _).
  rewrite Ey in Ev. injection Ev as ->.
  now destruct (mgu_step_variables _ _ _ _ _ Hs Hy).
Qed.

Lemma mgu_trace_length props rest :
  mgu_trace props rest -> (length rest <= count_variables props)%nat.
Proof.
  induction 1 as [p0 | props s props' rest Hs _ IH]; cbn [length]; [lia |].
  pose proof (mgu_step_decreases _ _ _ Hs). lia.
Qed.

(** X3. Every binding of a unifier returned by [most_general_unifier]
    binds a variable to a variable or a function, never to a predicate,
    and the variable does not occur in the term it is bound to. *)
Theorem returned_bindings_pass_occurs_check props subs s :
  most_general_unifier props = Ret subs ->
  In s subs ->
  exists x, variable s = MkVariable x
            /\ is_Variable_or_Function (term s) = true
            /\ is_subproposition (variable s) (term s) = false.
Proof.
  intros H Hin. apply most_general_unifier_trace in H.
  destruct H as [Ht | [-> _]]; [| destruct Hin].
  exact (mgu_trace_bindings _ _ Ht s Hin).
Qed.

(** X4. A unifier returned by [most_general_unifier] binds only variables
    that occur in the propositions it was given, to terms whose variables
    all occur in those propositions. *)
Theorem returned_bindings_over_input_variables props subs s :
  most_general_unifier props = Ret subs ->
  In s subs ->
  exists x, variable s = MkVariable x
            /\ In x (distinct_variables props)
            /\ incl (variables_of (term s)) (distinct_variables props).
Proof.
  intros H Hin. apply most_general_unifier_trace in H.
  destruct H as [Ht | [-> _]]; [| destruct Hin].
  exact (mgu_trace_variables _ _ Ht s Hin).
Qed.

(** X5. No variable is bound twice in a unifier returned by
    [most_general_unifier]. *)
Theorem returned_bindings_distinct props subs :
  most_general_unifier props = Ret subs ->
  NoDup (map variable subs).
Proof.
  intros H. apply most_general_unifier_trace in H.
  destruct H as [Ht | [-> _]]; [| constructor].
  exact (mgu_trace_distinct _ _ Ht).
Qed.

(** X6. A unifier returned by [most_general_unifier] has at most as many
    bindings as there are distinct variables in the propositions. *)
Theorem returned_unifier_length props subs :
  most_general_unifier props = Ret subs ->
  (length subs <= count_variables props)%nat.
Proof.
  intros H. apply most_general_unifier_trace in H.
  destruct H as [Ht | [-> _]]; [| cbn; lia].
  exact (mgu_trace_length _ _ Ht).
Qed.

(** X7. Applying a returned unifier twice is the same as applying it once,
    on every proposition. *)
Theorem returned_unifier_idempotent props subs p :
  most_general_unifier props = Ret subs ->
  apply_unifier subs (apply_unifier subs p) = apply_unifier subs p.
Proof.
  intros H. apply most_general_unifier_trace in H.
  destruct H as [Ht | [-> _]]; [| reflexivity].
  apply (mgu_trace_absorbed subs props subs Ht).
  - exact (mgu_trace_binds_terms _ _ Ht).
  - exact (mgu_trace_unifies _ _ Ht).
Qed.

(** X8. When the first two propositions of the sequence differ, or there
    is only one, the returned unifier makes all the propositions of the
    sequence equal, whatever their number. *)
Theorem most_general_unifier_unifies_all props subs :
  nth_error props 0 <> nth_error props 1 ->
  most_general_unifier props = Ret subs ->
  unifies_all subs props.
Proof.
  intros Hne H. apply most_general_unifier_trace in H.
  destruct H as [Ht | [_ (p & tl & ->)]].
  - exact (mgu_trace_unifies _ _ Ht).
  - now elim Hne.
Qed.

(** X9. [most_general_unifier] never rejects a unifiable sequence: if some
    sequence of bindings of terms makes all the propositions of a
    non-empty sequence equal, it returns a unifier. *)
Theorem most_general_unifier_complete props sigma :
  props <> [] ->
  binds_terms sigma ->
  unifies_all sigma props ->
  exists subs, most_general_unifier props = Ret subs.
Proof.
  intros Hne Hb Hu. unfold most_general_unifier.
  apply (mgu_fuel_unifiable sigma); [assumption .. | lia].
Qed.

(** X10. The returned unifier is most general: every sequence of bindings
    of terms that makes the propositions equal is unchanged by applying the
    returned unifier first. *)
Theorem most_general_unifier_most_general props subs sigma p :
  most_general_unifier props = Ret subs ->
  binds_terms sigma ->
  unifies_all sigma props ->
  apply_unifier sigma (apply_unifier subs p) = apply_unifier sigma p.
Proof.
  intros H Hb Hu. apply most_general_unifier_trace in H.
  destruct H as [Ht | [-> _]]; [| reflexivity].
  exact (mgu_trace_absorbed sigma props subs Ht Hb Hu p).
Qed.

(** X12. Called with an accumulator on pairwise different propositions,
    [most_general_unifier] returns the accumulator followed by bindings
    that make the propositions equal. *)
Theorem accumulator_is_prefix props acc res fuel :
  NoDup props ->
  mgu_fuel fuel props acc = Ret res ->
  exists rest, res = acc ++ rest /\ unifies_all rest props.
Proof.
  intros Hnd H. destruct (mgu_fuel_trace fuel props acc res Hnd H)
    as (rest & -> & Ht).
  exists rest. split; [reflexivity |]. exact (mgu_trace_unifies _ _ Ht).
Qed.

End ReturnedUnifier.

(** X11. Whether a pair can be unified does not depend on the order of the
    two propositions, nor on the iteration order of sets: if
    [most_general_unifier] returns on [(p, q)] under one order, it returns
    on [(q, p)] under any other. *)
Theorem unifiability_symmetric (order1 order2 : SetOrder) p q subs :
  @most_general_unifier order1 [p; q] = Ret subs ->
  exists subs', @most_general_unifier order2 [q; p] = Ret subs'.
Proof.
  intros H. apply most_general_unifier_trace in H.
  destruct H as [Ht | [_ (p' & tl & E)]].
  - apply (@mgu_fuel_unifiable order2 subs).
    + exact (mgu_trace_binds_terms _ _ Ht).
    + intros a b Ha Hb. apply (mgu_trace_unifies _ _ Ht); cbn in *; tauto.
    + discriminate.
    + lia.
  - injection E as -> -> _.
    apply (@mgu_fuel_unifiable order2 []); [constructor | | discriminate | lia].
    intros a b [<- | [<- | []]] [<- | [<- | []]]; reflexivity.
Qed.

(** ** More about the loops *)

Lemma enumerate_In {A : Type} (xs : list A) i x :
  In (i, x) (enumerate xs) -> nth_error xs i = Some x.
Proof.
  unfold enumerate.
  assert (H : forall start,
             In (i, x) (combine (seq start (length xs)) xs) ->
             (start <= i)%nat /\ nth_error xs (i - start) = Some x).
  { induction xs as [| y ys IH]; intros start; cbn [length seq combine In];
      [intros [] |].
    intros [[= <- <-] | Hin].
    - rewrite Nat.sub_diag. split; [lia | reflexivity].
    - destruct (IH _ Hin) as [Hle Hn]. split; [lia |].
      replace (i - start)%nat with (S (i - S start)) by lia. exact Hn. }
  intros Hin. destruct (H 0%nat Hin) as [_ Hn].
  now rewrite Nat.sub_0_r in Hn.
Qed.

Lemma collect_nil {A B : Type} (f : A -> result (list B)) xs :
  (forall x, In x xs -> f x = Ret []) -> collect f xs = Ret [].
Proof.
  induction xs as [| x xs IH]; intros H; cbn; [reflexivity |].
  rewrite (H x) by now left. cbn.
  rewrite IH by (intros y Hy; apply H; now right). reflexivity.
Qed.

Lemma collect_app {A B : Type} (f : A -> result (list B)) xs ys :
  collect f (xs ++ ys)
  = (r1 <- collect f xs ;; r2 <- collect f ys ;; Ret (r1 ++ r2)).
Proof.
  induction xs as [| x xs IH]; cbn.
  - destruct (collect f ys); reflexivity.
  - destruct (f x) as [r |]; cbn; [| reflexivity]. rewrite IH.
    destruct (collect f xs) as [r1 |]; cbn; [| reflexivity].
    destruct (collect f ys) as [r2 |]; cbn; [| reflexivity].
    now rewrite app_assoc.
Qed.

Lemma collect_length {A B : Type} (f : A -> result (list B)) (bound : nat)
  xs res :
  (forall x r, In x xs -> f x = Ret r -> (length r <= bound)%nat) ->
  collect f xs = Ret res ->
  (length res <= bound * length xs)%nat.
Proof.
  revert res. induction xs as [| x xs IH]; intros res Hb; cbn.
  - intros [= <-]. cbn. lia.
  - destruct (f x) as [r |] eqn:Ex; [| discriminate]. cbn.
    destruct (collect f xs) as [rs |]; [| discriminate]. cbn.
    intros [= <-]. rewrite length_app.
    pose proof (Hb x r (or_introl eq_refl) Ex).
    pose proof (IH rs (fun y r' Hy => Hb y r' (or_intror Hy)) eq_refl).
    lia.
Qed.

Section MoreInferenceFacts.
Context {order : SetOrder}.
Variable EQUALITY_SYMBOL_ID : Z.

(** What [factoring] has done when it returns. *)
Lemma factoring_Ret given_clause literal_one literal_two r :
  factoring given_clause literal_one literal_two = Ret r ->
  negated literal_one = false
  /\ negated literal_two = false
  /\ exists subs,
      most_general_unifier [atom literal_one; atom literal_two] = Ret subs
      /\ literals r
         = map (apply_unifier_to_literal subs)
               (literals given_clause ++ [literal_one]).
Proof.
  unfold factoring.
  destruct (negated literal_one) eqn:N1; [discriminate |].
  destruct (negated literal_two) eqn:N2; [discriminate |]. cbn [orb].
  destruct (most_general_unifier [atom literal_one; atom literal_two])
    as [subs |] eqn:Em; [| discriminate].
  cbn [bind]. intros [= <-]. repeat split. exists subs.
  split; [reflexivity |]. apply literals_apply_unifier_to_clause.
Qed.

(** X13. A clause returned by [factoring] has one literal more than the
    clause it was given; the unifier it applied makes the two literals
    equal, and their common instance is a literal of the result. *)
Theorem factoring_merges_literals given_clause literal_one literal_two r :
  factoring given_clause literal_one literal_two = Ret r ->
  exists subs,
    most_general_unifier [atom literal_one; atom literal_two] = Ret subs
    /\ apply_unifier_to_literal subs literal_one
       = apply_unifier_to_literal subs literal_two
    /\ In (apply_unifier_to_literal subs literal_two) (literals r)
    /\ length (literals r) = S (length (literals given_clause)).
Proof.
  intros H. destruct (factoring_Ret _ _ _ _ H) as (N1 & N2 & subs & Em & El).
  exists subs. split; [exact Em |].
  assert (E : apply_unifier_to_literal subs literal_one
              = apply_unifier_to_literal subs literal_two).
  { unfold apply_unifier_to_literal. rewrite N1, N2. f_equal.
    apply most_general_unifier_trace in Em.
    destruct Em as [Ht | [_ (p & tl & Ep)]].
    - apply (mgu_trace_unifies _ _ Ht); cbn; auto.
    - injection Ep as -> -> _. reflexivity. }
  split; [exact E |]. rewrite El. split.
  - rewrite <- E. apply in_map, in_or_app. right. now left.
  - rewrite length_map, length_app. cbn. lia.
Qed.

(** X15. Every clause returned by [all_possible_factors] has exactly one
    literal less than the given clause. *)
Theorem factors_lose_one_literal given_clause res c :
  all_possible_factors given_clause = Ret res ->
  In c res ->
  S (length (literals c)) = length (literals given_clause).
Proof.
  unfold all_possible_factors.
  destruct (possible_factors given_clause) as [factors |] eqn:Ef;
    [| discriminate].
  cbn [bind]. intros [= <-] Hin. apply in_map_iff in Hin.
  destruct Hin as (factor & <- & Hin). cbn [literals].
  unfold possible_factors in Ef.
  destruct (collect_In _ _ _ _ Ef Hin) as ([i l1] & r & Hi & Hr & Hf).
  destruct (collect_In _ _ _ _ Hr Hf) as (j & r' & Hj & Hr' & Hf').
  apply enumerate_In in Hi. apply in_seq in Hj.
  assert (Hilt : (i < length (literals given_clause))%nat)
    by (apply nth_error_Some; congruence).
  destruct (nth_error (literals given_clause) j) as [l2 |]; [| discriminate].
  destruct (negb (negated l1) && negb (negated l2));
    [| injection Hr' as <-; destruct Hf'].
  match type of Hr' with
  | skip_non_unifiable (factoring ?c l1 l2) = _ =>
      destruct (factoring c l1 l2) as [f |] eqn:Efac
  end.
  - cbn in Hr'. injection Hr' as <-. destruct Hf' as [<- | []].
    apply factoring_Ret in Efac.
    destruct Efac as (_ & _ & subs & _ & ->). cbn [Clause_of literals].
    rewrite length_map, !length_app, !length_firstn, !length_skipn.
    cbn [length]. lia.
  - destruct e; cbn in Hr'; try discriminate.
    injection Hr' as <-. destruct Hf'.
Qed.

(** X16. A clause in which no two literals are both positive has no
    factors: [all_possible_factors] returns the empty sequence. *)
Theorem no_positive_pair_no_factors given_clause :
  (forall i j li lj,
      (i < j)%nat ->
      nth_error (literals given_clause) i = Some li ->
      nth_error (literals given_clause) j = Some lj ->
      negated li = true \/ negated lj = true) ->
  all_possible_factors given_clause = Ret [].
Proof.
  intros H. unfold all_possible_factors, possible_factors.
  rewrite collect_nil; [reflexivity |].
  intros [i l1] Hi. apply enumerate_In in Hi.
  apply collect_nil. intros j Hj. apply in_seq in Hj.
  destruct (nth_error (literals given_clause) j) as [l2 |] eqn:Ej.
  - destruct (H i j l1 l2 (proj1 Hj) Hi Ej) as [-> | ->];
      [reflexivity | now rewrite andb_false_r].
  - apply nth_error_None in Ej.
    assert ((i < length (literals given_clause))%nat)
      by (apply nth_error_Some; congruence).
    lia.
Qed.

(** X17. [factoring] of a positive literal with itself applies the empty
    unifier: the result is the given clause's literals followed by that
    literal, unchanged. *)
Theorem factoring_same_literal given_clause l :
  negated l = false ->
  factoring given_clause l l = Ret (Clause_of (literals given_clause ++ [l])).
Proof.
  intros N. unfold factoring, most_general_unifier. rewrite N.
  cbn [orb mgu_fuel]. now rewrite get_disagreement_refl.
Qed.

End MoreInferenceFacts.

Section MoreParamodulationFacts.
Context {order : SetOrder}.
Variable EQUALITY_SYMBOL_ID : Z.

(** On a positive equality with two arguments
    [all_paramodulants_from_clause] returns. *)
Lemma all_paramodulants_from_clause_returns
  clause_one literal_one clause_two literal_two s t :
  negated literal_one = false ->
  index_of (atom literal_one) = EQUALITY_SYMBOL_ID ->
  arguments_of (atom literal_one) = Some [s; t] ->
  exists res,
    all_paramodulants_from_clause EQUALITY_SYMBOL_ID
      clause_one literal_one clause_two literal_two
    = Ret res.
Proof.
  intros N Ei Ea.
  unfold all_paramodulants_from_clause, not_an_equality, argument_at.
  rewrite Ei, Z.eqb_refl, N, Ea. cbn.
  destruct (prop_eqb s t); [now eexists |].
  eexists.
  apply (collect_Ret_flat_map
           (equality_symmetry_paramodulation
              clause_one literal_one clause_two literal_two)
           (fun k => attempt clause_one s t clause_two literal_two k
                     ++ attempt clause_one t s clause_two literal_two k)).
  intros k Hk. apply in_seq in Hk.
  unfold equality_symmetry_paramodulation, argument_at.
  rewrite Ea. cbn [nth_error bind].
  rewrite !paramodulation_in_range by lia. reflexivity.
Qed.

Lemma well_formed_positive_equality l :
  well_formed_literal EQUALITY_SYMBOL_ID l ->
  is_positive_equality EQUALITY_SYMBOL_ID l = true ->
  negated l = false
  /\ index_of (atom l) = EQUALITY_SYMBOL_ID
  /\ exists s t, arguments_of (atom l) = Some [s; t].
Proof.
  unfold well_formed_literal, is_positive_equality.
  intros Hwf Hpos. apply andb_true_iff in Hpos. destruct Hpos as [Hn Hi].
  apply negb_true_iff in Hn. apply Z.eqb_eq in Hi.
  destruct (atom l) as [i | i args | i args]; try contradiction.
  cbn in Hi. specialize (Hwf Hi).
  destruct args as [| s [| t [| u args]]]; try discriminate.
  repeat split; try assumption. now exists s, t.
Qed.

(** X18. [all_paramodulants_from_clause] returns at most two clauses for
    each position of the atom other than its root. *)
Theorem paramodulants_count_bound
  clause_one literal_one clause_two literal_two res :
  all_paramodulants_from_clause EQUALITY_SYMBOL_ID
    clause_one literal_one clause_two literal_two
  = Ret res ->
  (length res <= 2 * (proposition_length (atom literal_two) - 1))%nat.
Proof.
  unfold all_paramodulants_from_clause.
  destruct (not_an_equality EQUALITY_SYMBOL_ID literal_one) as [[|] |];
    try discriminate.
  cbn [bind].
  destruct (argument_at (atom literal_one) 0) as [s |]; [| discriminate].
  destruct (argument_at (atom literal_one) 1) as [t |]; [| discriminate].
  cbn [bind]. destruct (prop_eqb s t); [intros [= <-]; cbn; lia |].
  intros H. apply (collect_length _ 2%nat) in H.
  - now rewrite length_seq in H.
  - intros k r _. unfold equality_symmetry_paramodulation.
    destruct (skip_failed_attempt _) as [r1 |] eqn:E1; [| discriminate].
    cbn [bind].
    destruct (skip_failed_attempt _) as [r2 |] eqn:E2 in |- *;
      [| discriminate].
    cbn [bind]. intros [= <-]. rewrite length_app.
    assert (Hone : forall x r0,
               skip_failed_attempt x = Ret r0 -> (length r0 <= 1)%nat).
    { intros [c0 | []] r0; cbn; intros [= <-]; cbn; lia. }
    pose proof (Hone _ _ E1). pose proof (Hone _ _ E2). lia.
Qed.

(** X19. When no literal of the processed clauses or of the given clause
    is a positive literal with the index of the equality symbol,
    [all_paramodulants_from_list] returns the empty sequence. *)
Theorem no_equality_no_paramodulants clauses given_clause :
  (forall l, In l (literals given_clause) ->
             is_positive_equality EQUALITY_SYMBOL_ID l = false) ->
  (forall c l, In c clauses -> In l (literals c) ->
               is_positive_equality EQUALITY_SYMBOL_ID l = false) ->
  all_paramodulants_from_list EQUALITY_SYMBOL_ID clauses given_clause
  = Ret [].
Proof.
  intros Hg Hc. unfold all_paramodulants_from_list.
  apply collect_nil. intros other Hother.
  apply collect_nil. intros [i l1] Hi.
  apply enumerate_In, nth_error_In in Hi.
  unfold get_new_paramodulants. rewrite collect_nil; [reflexivity |].
  intros [j l2] Hj. apply enumerate_In, nth_error_In in Hj.
  pose proof (Hc other l1 Hother Hi) as H1. pose proof (Hg l2 Hj) as H2.
  unfold is_positive_equality in H1, H2. now rewrite H1, H2.
Qed.

(** X20. On clauses whose literals are well formed, so that every atom is
    a predicate and every atom of the equality symbol has two arguments,
    [all_paramodulants_from_list] never raises. *)
Theorem all_paramodulants_from_list_returns clauses given_clause :
  (forall l, In l (literals given_clause) ->
             well_formed_literal EQUALITY_SYMBOL_ID l) ->
  (forall c l, In c clauses -> In l (literals c) ->
               well_formed_literal EQUALITY_SYMBOL_ID l) ->
  exists res,
    all_paramodulants_from_list EQUALITY_SYMBOL_ID clauses given_clause
    = Ret res.
Proof.
  intros Hg Hc. unfold all_paramodulants_from_list.
  apply collect_total. intros other Hother.
  apply collect_total. intros [i l1] Hi.
  apply enumerate_In, nth_error_In in Hi.
  assert (Hnew : exists new,
             get_new_paramodulants EQUALITY_SYMBOL_ID
               (Clause_of (firstn i (literals other)
                           ++ skipn (S i) (literals other)))
               l1 given_clause = Ret new).
  { unfold get_new_paramodulants. apply collect_total.
    intros [j l2] Hj. apply enumerate_In, nth_error_In in Hj.
    fold (is_positive_equality EQUALITY_SYMBOL_ID l1).
    fold (is_positive_equality EQUALITY_SYMBOL_ID l2).
    match goal with
    | |- exists r, (forwards <- ?F ;; backwards <- ?B ;; _) = _ =>
        assert (HF : exists r, F = Ret r);
        [| assert (HB : exists r, B = Ret r)]
    end.
    - destruct (is_positive_equality EQUALITY_SYMBOL_ID l1) eqn:P1;
        [| now eexists].
      destruct (well_formed_positive_equality l1 (Hc _ _ Hother Hi) P1)
        as (N & Ei & s & t & Ea).
      eapply all_paramodulants_from_clause_returns; eassumption.
    - destruct (is_positive_equality EQUALITY_SYMBOL_ID l2) eqn:P2;
        [| now eexists].
      destruct (well_formed_positive_equality l2 (Hg _ Hj) P2)
        as (N & Ei & s & t & Ea).
      eapply all_paramodulants_from_clause_returns; eassumption.
    - destruct HF as [rf ->], HB as [rb ->]. cbn. now eexists. }
  destruct Hnew as [new ->]. cbn. now eexists.
Qed.

(** X21. [all_paramodulants_from_list] goes through the processed clauses
    one after the other: on a concatenation it gives the results for the
    first part followed by the results for the second part, or the first
    exception met on the way. *)
Theorem all_paramodulants_from_list_app clauses1 clauses2 given_clause :
  all_paramodulants_from_list EQUALITY_SYMBOL_ID
    (clauses1 ++ clauses2) given_clause
  = (r1 <- all_paramodulants_from_list EQUALITY_SYMBOL_ID
             clauses1 given_clause ;;
     r2 <- all_paramodulants_from_list EQUALITY_SYMBOL_ID
             clauses2 given_clause ;;
     Ret (r1 ++ r2)).
Proof.
  unfold all_paramodulants_from_list. apply collect_app.
Qed.

(** X22. With a given clause that has no literal
    [all_paramodulants_from_list] returns the empty sequence, and the test
    on the equality literal is never reached: it does so even when a
    processed clause holds a positive literal of the equality symbol with
    the wrong number of arguments. *)
Theorem empty_given_clause_no_paramodulants clauses given_clause :
  literals given_clause = [] ->
  all_paramodulants_from_list EQUALITY_SYMBOL_ID clauses given_clause
  = Ret [].
Proof.
  intros E. unfold all_paramodulants_from_list.
  apply collect_nil. intros other _.
  apply collect_nil. intros [i l1] _.
  unfold get_new_paramodulants. rewrite E. reflexivity.
Qed.

(** X23. When the first literal of the first processed clause is positive,
    has the index of the equality symbol and does not carry exactly two
    arguments, and the given clause has a literal,
    [all_paramodulants_from_list] raises [ValueError], and the message is
    "expected equality, but got " followed by the text of that literal. *)
Theorem malformed_equality_raises
  processed clauses given_clause l ls l2 ls2 args :
  literals processed = l :: ls ->
  literals given_clause = l2 :: ls2 ->
  negated l = false ->
  index_of (atom l) = EQUALITY_SYMBOL_ID ->
  arguments_of (atom l) = Some args ->
  length args <> 2%nat ->
  all_paramodulants_from_list EQUALITY_SYMBOL_ID
    (processed :: clauses) given_clause
  = Raise (ValueError
             ("expected equality, but got " ++ repr_literal l)%string).
Proof.
  intros El Eg N Ei Ea Hlen.
  unfold all_paramodulants_from_list. cbn [collect]. rewrite El.
  cbn [enumerate length seq combine collect].
  unfold get_new_paramodulants at 1. rewrite Eg.
  cbn [enumerate length seq combine collect].
  rewrite N, Ei, Z.eqb_refl. cbn [negb andb].
  unfold all_paramodulants_from_clause at 1, not_an_equality.
  rewrite N, Ei, Z.eqb_refl, Ea. cbn [negb].
  destruct (Nat.eqb_spec (length args) 2); [contradiction |]. reflexivity.
Qed.

(** X24. A clause returned by [paramodulation] has at least one literal
    and at most one more than the two side clauses together. *)
Theorem paramodulant_size clause_one s t clause_two literal_two k r :
  paramodulation clause_one (s, t) clause_two literal_two k = Ret r ->
  (1 <= length (literals r)
   <= S (length (literals clause_one) + length (literals clause_two)))%nat.
Proof.
  unfold paramodulation. cbn [fst snd].
  destruct (subterm_by_index (atom literal_two) k) as [sub |];
    [| discriminate].
  cbn [bind].
  destruct (most_general_unifier [s; sub]) as [subs |]; [| discriminate].
  cbn [bind].
  destruct (replace_subterm_by_index (atom literal_two) k t)
    as [new_atom |]; [| discriminate].
  cbn [bind]. intros [= <-].
  rewrite literals_apply_unifier_to_clause. cbn [Clause_of literals].
  rewrite length_map.
  set (all := mkLiteral (negated literal_two) new_atom
              :: literals clause_one ++ literals clause_two).
  pose proof (tuple_of_literal_set_NoDup all) as Hnd.
  assert (Hincl : incl (tuple_of_literal_set all) all)
    by (intros l Hl; now apply tuple_of_literal_set_In).
  pose proof (NoDup_incl_length Hnd Hincl) as Hle.
  cbn [all length] in Hle. rewrite length_app in Hle. split; [| lia].
  destruct (tuple_of_literal_set all) as [| l0 rest] eqn:Et; [| cbn; lia].
  exfalso.
  assert (Hin : In (mkLiteral (negated literal_two) new_atom)
                   (tuple_of_literal_set all))
    by (apply tuple_of_literal_set_In; now left).
  rewrite Et in Hin. destruct Hin.
Qed.

End MoreParamodulationFacts.

(** ** The disagreement pair and the order of the arguments *)

Lemma zip_disagreement_symmetric l1 :
  Forall (fun p => forall q,
              get_disagreement q p
              = option_map swap_pair (get_disagreement p q)) l1 ->
  forall l2,
    zip_disagreement l2 l1 = option_map swap_pair (zip_disagreement l1 l2).
Proof.
  induction 1 as [| x l Hx _ IH]; intros [| y l2]; cbn; try reflexivity.
  rewrite Hx. destruct (get_disagreement x y) as [[a b] |]; cbn;
    [reflexivity | apply IH].
Qed.

(** X25. Swapping the two arguments of [_get_disagreement] swaps the two
    sides of the pair it returns, and nothing else. *)
Theorem get_disagreement_symmetric p :
  forall q,
    get_disagreement q p = option_map swap_pair (get_disagreement p q).
Proof.
  induction p as [i | i args IH | i args IH] using Proposition_ind';
    intros [j | j a2 | j a2]; try reflexivity.
  - cbn. rewrite (Z.eqb_sym j i). now destruct (Z.eqb i j).
  - rewrite !get_disagreement_Function, (Z.eqb_sym j i),
      (Nat.eqb_sym (length a2) (length args)).
    destruct (negb (i =? j) || negb (length args =? length a2)%nat);
      [reflexivity | now apply zip_disagreement_symmetric].
  - rewrite !get_disagreement_Predicate, (Z.eqb_sym j i),
      (Nat.eqb_sym (length a2) (length args)).
    destruct (negb (i =? j) || negb (length args =? length a2)%nat);
      [reflexivity | now apply zip_disagreement_symmetric].
Qed.

(** ** The further properties at the documented examples *)

Lemma doctest_unifier_binds_terms : binds_terms doctest_unifier.
Proof. repeat constructor. Qed.

Lemma doctest_unifier_unifies :
  unifies_all doctest_unifier [doctest_one; doctest_two].
Proof.
  intros p q [<- | [<- | []]] [<- | [<- | []]]; reflexivity.
Qed.

Lemma returned_bindings_pass_occurs_check_witness :
  @most_general_unifier first_seen_order [doctest_one; doctest_two]
  = Ret doctest_unifier
  /\ exists x,
      variable (mkSubstitution (MkVariable 5) (MkFunction 0 [MkVariable 2]))
      = MkVariable x
      /\ is_Variable_or_Function (MkFunction 0 [MkVariable 2]) = true
      /\ is_subproposition (MkVariable 5) (MkFunction 0 [MkVariable 2])
         = false.
Proof.
  split; [reflexivity |].
  apply (@returned_bindings_pass_occurs_check first_seen_order
           [doctest_one; doctest_two] doctest_unifier
           (mkSubstitution (MkVariable 5) (MkFunction 0 [MkVariable 2])));
    [reflexivity | cbn; auto].
Defined.

Lemma returned_bindings_over_input_variables_witness :
  @most_general_unifier first_seen_order [doctest_one; doctest_two]
  = Ret doctest_unifier
  /\ exists x,
      MkVariable 5 = MkVariable x
      /\ In x (distinct_variables [doctest_one; doctest_two])
      /\ incl (variables_of (MkFunction 0 [MkVariable 2]))
              (distinct_variables [doctest_one; doctest_two]).
Proof.
  split; [reflexivity |].
  apply (@returned_bindings_over_input_variables first_seen_order
           [doctest_one; doctest_two] doctest_unifier
           (mkSubstitution (MkVariable 5) (MkFunction 0 [MkVariable 2])));
    [reflexivity | cbn; auto].
Defined.

Lemma returned_bindings_distinct_witness :
  @most_general_unifier first_seen_order [doctest_one; doctest_two]
  = Ret doctest_unifier
  /\ NoDup (map variable doctest_unifier).
Proof.
  split; [reflexivity |].
  apply (@returned_bindings_distinct first_seen_order
           [doctest_one; doctest_two]).
  reflexivity.
Defined.

Lemma returned_unifier_length_witness :
  @most_general_unifier first_seen_order [doctest_one; doctest_two]
  = Ret doctest_unifier
  /\ (length doctest_unifier
      <= count_variables [doctest_one; doctest_two])%nat.
Proof.
  split; [reflexivity |].
  apply (@returned_unifier_length first_seen_order
           [doctest_one; doctest_two]).
  reflexivity.
Defined.

Lemma returned_unifier_idempotent_witness :
  @most_general_unifier first_seen_order [doctest_one; doctest_two]
  = Ret doctest_unifier
  /\ apply_unifier doctest_unifier
       (apply_unifier doctest_unifier doctest_two)
     = apply_unifier doctest_unifier doctest_two.
Proof.
  split; [reflexivity |].
  apply (@returned_unifier_idempotent first_seen_order
           [doctest_one; doctest_two]).
  reflexivity.
Defined.

Lemma most_general_unifier_unifies_all_witness :
  nth_error example_three 0 <> nth_error example_three 1
  /\ @most_general_unifier first_seen_order example_three
     = Ret [mkSubstitution (MkVariable 0) (MkFunction 1 [MkVariable 1]);
            mkSubstitution (MkVariable 1) (MkFunction 0 [])]
  /\ unifies_all
       [mkSubstitution (MkVariable 0) (MkFunction 1 [MkVariable 1]);
        mkSubstitution (MkVariable 1) (MkFunction 0 [])]
       example_three.
Proof.
  split; [discriminate |]. split; [reflexivity |].
  apply (@most_general_unifier_unifies_all first_seen_order);
    [discriminate | reflexivity].
Defined.

Lemma most_general_unifier_complete_witness :
  [doctest_one; doctest_two] <> []
  /\ binds_terms doctest_unifier
  /\ unifies_all doctest_unifier [doctest_one; doctest_two]
  /\ exists subs,
      @most_general_unifier first_seen_order [doctest_one; doctest_two]
      = Ret subs.
Proof.
  split; [discriminate |].
  split; [exact doctest_unifier_binds_terms |].
  split; [exact doctest_unifier_unifies |].
  apply (@most_general_unifier_complete first_seen_order
           [doctest_one; doctest_two] doctest_unifier);
    [discriminate | exact doctest_unifier_binds_terms
     | exact doctest_unifier_unifies].
Defined.

Lemma most_general_unifier_most_general_witness :
  @most_general_unifier first_seen_order [doctest_one; doctest_two]
  = Ret doctest_unifier
  /\ binds_terms doctest_unifier
  /\ unifies_all doctest_unifier [doctest_one; doctest_two]
  /\ apply_unifier doctest_unifier
       (apply_unifier doctest_unifier (MkVariable 1))
     = apply_unifier doctest_unifier (MkVariable 1).
Proof.
  split; [reflexivity |].
  split; [exact doctest_unifier_binds_terms |].
  split; [exact doctest_unifier_unifies |].
  apply (@most_general_unifier_most_general first_seen_order
           [doctest_one; doctest_two] doctest_unifier doctest_unifier);
    [reflexivity | exact doctest_unifier_binds_terms
     | exact doctest_unifier_unifies].
Defined.

Lemma unifiability_symmetric_witness :
  @most_general_unifier first_seen_order [doctest_one; doctest_two]
  = Ret doctest_unifier
  /\ exists subs',
      @most_general_unifier first_seen_order [doctest_two; doctest_one]
      = Ret subs'.
Proof.
  split; [reflexivity |].
  apply (unifiability_symmetric first_seen_order first_seen_order
           doctest_one doctest_two doctest_unifier).
  reflexivity.
Defined.

Lemma accumulator_is_prefix_witness :
  NoDup [doctest_one; doctest_two]
  /\ @mgu_fuel first_seen_order 9 [doctest_one; doctest_two]
       [mkSubstitution (MkVariable 9) (MkVariable 8)]
     = Ret (mkSubstitution (MkVariable 9) (MkVariable 8) :: doctest_unifier)
  /\ exists rest,
      mkSubstitution (MkVariable 9) (MkVariable 8) :: doctest_unifier
      = [mkSubstitution (MkVariable 9) (MkVariable 8)] ++ rest
      /\ unifies_all rest [doctest_one; doctest_two].
Proof.
  assert (Hnd : NoDup [doctest_one; doctest_two]).
  { constructor; [| constructor; [intros [] | constructor]].
    intros [E | []]. discriminate E. }
  split; [exact Hnd |]. split; [reflexivity |].
  apply (@accumulator_is_prefix first_seen_order
           [doctest_one; doctest_two]
           [mkSubstitution (MkVariable 9) (MkVariable 8)] _ 9 Hnd).
  reflexivity.
Defined.

Lemma factoring_merges_literals_witness :
  exists r subs,
    @factoring first_seen_order
      doctest_clause doctest_literal_one doctest_literal_two
    = Ret r
    /\ @most_general_unifier first_seen_order
         [atom doctest_literal_one; atom doctest_literal_two]
       = Ret subs
    /\ apply_unifier_to_literal subs doctest_literal_one
       = apply_unifier_to_literal subs doctest_literal_two
    /\ In (apply_unifier_to_literal subs doctest_literal_two) (literals r)
    /\ length (literals r) = S (length (literals doctest_clause)).
Proof.
  eexists.
  assert (H : @factoring first_seen_order
                doctest_clause doctest_literal_one doctest_literal_two
              = Ret (Clause_of
                       [mkLiteral true (MkPredicate 8 [MkFunction 0 []]);
                        mkLiteral false (MkPredicate 9 [MkFunction 0 []])]))
    by reflexivity.
  destruct (@factoring_merges_literals first_seen_order _ _ _ _ H)
    as (subs & H1 & H2 & H3 & H4).
  exists subs. repeat split; assumption.
Defined.

Lemma factors_lose_one_literal_witness :
  exists res c,
    @all_possible_factors first_seen_order doctest_given_clause = Ret res
    /\ In c res
    /\ S (length (literals c)) = length (literals doctest_given_clause).
Proof.
  eexists. eexists.
  assert (H : @all_possible_factors first_seen_order doctest_given_clause
              = Ret [mkClause
                       [mkLiteral false (MkPredicate 2 []);
                        mkLiteral false (MkPredicate 1 [MkFunction 0 []])]
                       None (Some [Some "one"%string])
                       (Some "factoring"%string)])
    by reflexivity.
  split; [exact H |]. split; [left; reflexivity |].
  apply (@factors_lose_one_literal first_seen_order _ _ _ H).
  left. reflexivity.
Defined.

Lemma example_mixed_clause_pairs i j li lj :
  (i < j)%nat ->
  nth_error (literals example_mixed_clause) i = Some li ->
  nth_error (literals example_mixed_clause) j = Some lj ->
  negated li = true \/ negated lj = true.
Proof.
  intros Hlt Hi Hj. destruct i as [| i].
  - injection Hi as <-. now left.
  - destruct j as [| [| j]]; [lia | lia |].
    cbn in Hj. now destruct j.
Qed.

Lemma no_positive_pair_no_factors_witness :
  @all_possible_factors first_seen_order example_mixed_clause = Ret [].
Proof.
  apply (@no_positive_pair_no_factors first_seen_order).
  exact example_mixed_clause_pairs.
Defined.

Lemma factoring_same_literal_witness :
  negated doctest_literal_one = false
  /\ @factoring first_seen_order
       doctest_clause doctest_literal_one doctest_literal_one
     = Ret (Clause_of (literals doctest_clause ++ [doctest_literal_one])).
Proof.
  split; [reflexivity |].
  apply (@factoring_same_literal first_seen_order). reflexivity.
Defined.

Lemma paramodulants_count_bound_witness :
  @all_paramodulants_from_clause first_seen_order 0
    (Clause_of []) (example_equality 0 1)
    (Clause_of []) (example_equality 1 2)
  = Ret [Clause_of [example_equality 0 2]]
  /\ (length [Clause_of [example_equality 0 2]]
      <= 2 * (proposition_length (atom (example_equality 1 2)) - 1))%nat.
Proof.
  split; [reflexivity |].
  apply (@paramodulants_count_bound first_seen_order 0
           (Clause_of []) (example_equality 0 1)
           (Clause_of []) (example_equality 1 2)).
  reflexivity.
Defined.

Lemma no_equality_no_paramodulants_witness :
  @all_paramodulants_from_list first_seen_order 0
    [doctest_given_clause] example_mixed_clause
  = Ret [].
Proof.
  apply (@no_equality_no_paramodulants first_seen_order 0).
  - intros l [<- | [<- | []]]; reflexivity.
  - intros c l [<- | []] [<- | [<- | [<- | []]]]; reflexivity.
Defined.

Lemma all_paramodulants_from_list_returns_witness :
  exists res,
    @all_paramodulants_from_list first_seen_order 0
      [example_one 0 0 1 0] (example_two 0 1 2)
    = Ret res.
Proof.
  apply (@all_paramodulants_from_list_returns first_seen_order 0).
  - intros l [<- | []]. cbn. reflexivity.
  - intros c l [<- | []] [<- | [<- | []]]; cbn; reflexivity.
Defined.

Lemma empty_given_clause_no_paramodulants_witness :
  literals (Clause_of []) = []
  /\ @all_paramodulants_from_list first_seen_order 0
       [mkClause [mkLiteral false (MkPredicate 0 [MkFunction 1 []])]
          (Some "one"%string) None None]
       (Clause_of [])
     = Ret [].
Proof.
  split; [reflexivity |].
  apply (@empty_given_clause_no_paramodulants first_seen_order 0).
  reflexivity.
Defined.

Lemma malformed_equality_raises_witness :
  @all_paramodulants_from_list first_seen_order 0
    [mkClause [mkLiteral false (MkPredicate 0 [MkFunction 1 []])]
       (Some "one"%string) None None]
    (mkClause [mkLiteral true (MkPredicate 3 [])]
       (Some "two"%string) None None)
  = Raise (ValueError
             ("expected equality, but got "
              ++ "Literal(negated=False, atom=Predicate(index=0, "
              ++ "arguments=(Function(index=1, arguments=()),)))")%string).
Proof.
  apply (@malformed_equality_raises first_seen_order 0
           (mkClause [mkLiteral false (MkPredicate 0 [MkFunction 1 []])]
              (Some "one"%string) None None)
           []
           (mkClause [mkLiteral true (MkPredicate 3 [])]
              (Some "two"%string) None None)
           (mkLiteral false (MkPredicate 0 [MkFunction 1 []])) []
           (mkLiteral true (MkPredicate 3 [])) []
           [MkFunction 1 []]);
    try reflexivity.
  cbn. lia.
Defined.

Lemma paramodulant_size_witness :
  exists r,
    @paramodulation first_seen_order
      (Clause_of [mkLiteral false (MkPredicate 8 [MkVariable 0])])
      (MkVariable 0, MkFunction 7 [])
      (Clause_of [mkLiteral false (MkPredicate 9 [MkVariable 0])])
      (mkLiteral true (MkPredicate 10 [MkFunction 0 []])) 1
    = Ret r
    /\ (1 <= length (literals r) <= 3)%nat.
Proof.
  eexists.
  assert (H : @paramodulation first_seen_order
                (Clause_of [mkLiteral false (MkPredicate 8 [MkVariable 0])])
                (MkVariable 0, MkFunction 7 [])
                (Clause_of [mkLiteral false (MkPredicate 9 [MkVariable 0])])
                (mkLiteral true (MkPredicate 10 [MkFunction 0 []])) 1
              = Ret (Clause_of
                       [mkLiteral true (MkPredicate 10 [MkFunction 7 []]);
                        mkLiteral false (MkPredicate 8 [MkFunction 0 []]);
                        mkLiteral false (MkPredicate 9 [MkFunction 0 []])]))
    by reflexivity.
  split; [exact H |].
  apply (@paramodulant_size first_seen_order _ _ _ _ _ _ _ H).
Defined.

(** ** Nothing is left out by the enumerations *)

Lemma enumerate_nth {A : Type} (xs : list A) i x :
  nth_error xs i = Some x -> In (i, x) (enumerate xs).
Proof.
  unfold enumerate.
  assert (H : forall start,
             nth_error xs i = Some x ->
             In ((start + i)%nat, x) (combine (seq start (length xs)) xs)).
  { revert i. induction xs as [| y ys IH]; intros [| i] start;
      cbn [nth_error length seq combine In]; try discriminate.
    - intros [= ->]. left. now rewrite Nat.add_0_r.
    - intros Hn. right. replace (start + S i)%nat with (S start + i)%nat by lia.
      now apply IH. }
  intros Hn. apply (H 0%nat Hn).
Qed.

Lemma collect_incl {A B : Type} (f : A -> result (list B)) xs res x :
  collect f xs = Ret res ->
  In x xs ->
  exists r, f x = Ret r /\ incl r res.
Proof.
  revert res. induction xs as [| y ys IH]; intros res; cbn; [intros _ [] |].
  destruct (f y) as [r |] eqn:Ey; [| discriminate]. cbn.
  destruct (collect f ys) as [rs |]; [| discriminate]. cbn.
  intros [= <-] [<- | Hin].
  - exists r. split; [assumption | apply incl_appl, incl_refl].
  - destruct (IH rs eq_refl Hin) as (r' & Hr' & Hincl).
    exists r'. split; [assumption | now apply incl_appr].
Qed.

Section Exhaustive.
Context {order : SetOrder}.
Variable EQUALITY_SYMBOL_ID : Z.

(** X26. [all_possible_factors] leaves out no factor: for every two
    positions [i < j] of the given clause on whose literals, with the other
    literals as the clause, [factoring] returns, the returned clause, tagged
    as a factor of the given clause, is in the result. *)
Theorem all_possible_factors_exhaustive given_clause res i j li lj f :
  all_possible_factors given_clause = Ret res ->
  (i < j)%nat ->
  nth_error (literals given_clause) i = Some li ->
  nth_error (literals given_clause) j = Some lj ->
  factoring
    (Clause_of (firstn i (literals given_clause)
                ++ firstn (j - S i) (skipn (S i) (literals given_clause))
                ++ skipn (S j) (literals given_clause)))
    li lj
  = Ret f ->
  In (mkClause (literals f) None (Some [label given_clause])
        (Some "factoring"%string)) res.
Proof.
  unfold all_possible_factors. intros H Hlt Hi Hj Hf.
  destruct (possible_factors given_clause) as [factors |] eqn:Ef;
    [| discriminate].
  cbn [bind] in H. injection H as <-.
  apply (in_map (fun factor =>
                   mkClause (literals factor) None
                     (Some [label given_clause])
                     (Some "factoring"%string))).
  unfold possible_factors in Ef.
  destruct (collect_incl _ _ _ (i, li) Ef (enumerate_nth _ _ _ Hi))
    as (r & Hr & Hincl).
  assert (Hjin : In j (seq (S i) (length (literals given_clause) - S i))).
  { apply in_seq. assert ((j < length (literals given_clause))%nat)
      by (apply nth_error_Some; congruence). lia. }
  destruct (collect_incl _ _ _ j Hr Hjin) as (r' & Hr' & Hincl').
  rewrite Hj in Hr'.
  destruct (factoring_Ret _ _ _ _ Hf) as (N1 & N2 & _).
  rewrite N1, N2, Hf in Hr'. cbn in Hr'. injection Hr' as <-.
  apply Hincl, Hincl'. now left.
Qed.

(** On a positive equality with two different sides
    [all_paramodulants_from_clause] is the concatenation of the attempts,
    position by position. *)
Lemma all_paramodulants_from_clause_attempts
  clause_one literal_one clause_two literal_two s t :
  is_positive_equality EQUALITY_SYMBOL_ID literal_one = true ->
  arguments_of (atom literal_one) = Some [s; t] ->
  s <> t ->
  all_paramodulants_from_clause EQUALITY_SYMBOL_ID
    clause_one literal_one clause_two literal_two
  = Ret (flat_map
           (fun k =>
              attempt clause_one s t clause_two literal_two k
              ++ attempt clause_one t s clause_two literal_two k)
           (seq 1 (proposition_length (atom literal_two) - 1))).
Proof.
  unfold is_positive_equality. intros Hpos Ea Hne.
  apply andb_true_iff in Hpos. destruct Hpos as [N Ei].
  apply negb_true_iff in N.
  unfold all_paramodulants_from_clause, not_an_equality, argument_at.
  rewrite Ei, N, Ea. cbn.
  destruct (prop_eqb s t) eqn:E; [apply prop_eqb_eq in E; contradiction |].
  apply (collect_Ret_flat_map
           (equality_symmetry_paramodulation
              clause_one literal_one clause_two literal_two)
           (fun k => attempt clause_one s t clause_two literal_two k
                     ++ attempt clause_one t s clause_two literal_two k)).
  intros k Hk. apply in_seq in Hk.
  unfold equality_symmetry_paramodulation, argument_at.
  rewrite Ea. cbn [nth_error bind].
  rewrite !paramodulation_in_range by lia. reflexivity.
Qed.

Lemma attempts_contain clause_one s t u v clause_two literal_two k c :
  (u, v) = (s, t) \/ (u, v) = (t, s) ->
  (1 <= k < proposition_length (atom literal_two))%nat ->
  paramodulation clause_one (u, v) clause_two literal_two k = Ret c ->
  In c (flat_map
          (fun k =>
             attempt clause_one s t clause_two literal_two k
             ++ attempt clause_one t s clause_two literal_two k)
          (seq 1 (proposition_length (atom literal_two) - 1))).
Proof.
  intros Huv Hk Hp. apply in_flat_map. exists k.
  split; [apply in_seq; lia |]. apply in_or_app. unfold attempt.
  destruct Huv as [[= -> ->] | [= -> ->]]; [left | right];
    rewrite Hp; now left.
Qed.

(** X27. [all_paramodulants_from_list] leaves out no rewriting of the given
    clause by a processed equation. For a processed clause, one of its
    literals that is a positive equality with two different sides, a
    literal of the given clause and a position of its atom other than the
    root: when [paramodulation], with either side of the equality as the
    term to unify, returns a clause, that clause, tagged with the two
    labels, is in the result. *)
Theorem processed_equation_rewrites_given
  clauses given_clause res other i l1 j l2 s t u v k c :
  all_paramodulants_from_list EQUALITY_SYMBOL_ID clauses given_clause
  = Ret res ->
  In other clauses ->
  nth_error (literals other) i = Some l1 ->
  nth_error (literals given_clause) j = Some l2 ->
  is_positive_equality EQUALITY_SYMBOL_ID l1 = true ->
  arguments_of (atom l1) = Some [s; t] ->
  s <> t ->
  (u, v) = (s, t) \/ (u, v) = (t, s) ->
  (1 <= k < proposition_length (atom l2))%nat ->
  paramodulation
    (Clause_of (firstn i (literals other) ++ skipn (S i) (literals other)))
    (u, v)
    (Clause_of (firstn j (literals given_clause)
                ++ skipn (S j) (literals given_clause)))
    l2 k
  = Ret c ->
  In (mkClause (literals c) None
        (Some [label other; label given_clause])
        (Some "paramodulation"%string)) res.
Proof.
  intros H Hother Hi Hj Hpos Ea Hne Huv Hk Hp.
  unfold all_paramodulants_from_list in H.
  destruct (collect_incl _ _ _ other H Hother) as (r1 & Hr1 & Hincl1).
  destruct (collect_incl _ _ _ (i, l1) Hr1 (enumerate_nth _ _ _ Hi))
    as (r2 & Hr2 & Hincl2).
  destruct (get_new_paramodulants _ _ _ _) as [new |] eqn:Hnew;
    [| discriminate].
  cbn [bind] in Hr2. injection Hr2 as <-.
  apply Hincl1, Hincl2.
  apply (in_map (fun paramodulant =>
                   mkClause (literals paramodulant) None
                     (Some [label other; label given_clause])
                     (Some "paramodulation"%string))).
  unfold get_new_paramodulants in Hnew.
  destruct (collect_incl _ _ _ (j, l2) Hnew (enumerate_nth _ _ _ Hj))
    as (r3 & Hr3 & Hincl3).
  apply Hincl3.
  fold (is_positive_equality EQUALITY_SYMBOL_ID l1) in Hr3.
  rewrite Hpos in Hr3.
  rewrite (all_paramodulants_from_clause_attempts _ _ _ _ s t Hpos Ea Hne)
    in Hr3.
  cbn [bind] in Hr3.
  match type of Hr3 with
  | (backwards <- ?B ;; _) = _ => destruct B as [bw |]; [| discriminate]
  end.
  cbn [bind] in Hr3. injection Hr3 as <-.
  apply in_or_app. left. exact (attempts_contain _ _ _ _ _ _ _ _ _ Huv Hk Hp).
Qed.

(** X28. [all_paramodulants_from_list] leaves out no rewriting of a
    processed clause by an equation of the given clause: the same as X27
    with the two clauses in the other roles, the parents still being the
    processed clause's label followed by the given clause's. *)
Theorem given_equation_rewrites_processed
  clauses given_clause res other i l1 j l2 s t u v k c :
  all_paramodulants_from_list EQUALITY_SYMBOL_ID clauses given_clause
  = Ret res ->
  In other clauses ->
  nth_error (literals other) i = Some l1 ->
  nth_error (literals given_clause) j = Some l2 ->
  is_positive_equality EQUALITY_SYMBOL_ID l2 = true ->
  arguments_of (atom l2) = Some [s; t] ->
  s <> t ->
  (u, v) = (s, t) \/ (u, v) = (t, s) ->
  (1 <= k < proposition_length (atom l1))%nat ->
  paramodulation
    (Clause_of (firstn j (literals given_clause)
                ++ skipn (S j) (literals given_clause)))
    (u, v)
    (Clause_of (firstn i (literals other) ++ skipn (S i) (literals other)))
    l1 k
  = Ret c ->
  In (mkClause (literals c) None
        (Some [label other; label given_clause])
        (Some "paramodulation"%string)) res.
Proof.
  intros H Hother Hi Hj Hpos Ea Hne Huv Hk Hp.
  unfold all_paramodulants_from_list in H.
  destruct (collect_incl _ _ _ other H Hother) as (r1 & Hr1 & Hincl1).
  destruct (collect_incl _ _ _ (i, l1) Hr1 (enumerate_nth _ _ _ Hi))
    as (r2 & Hr2 & Hincl2).
  destruct (get_new_paramodulants _ _ _ _) as [new |] eqn:Hnew;
    [| discriminate].
  cbn [bind] in Hr2. injection Hr2 as <-.
  apply Hincl1, Hincl2.
  apply (in_map (fun paramodulant =>
                   mkClause (literals paramodulant) None
                     (Some [label other; label given_clause])
                     (Some "paramodulation"%string))).
  unfold get_new_paramodulants in Hnew.
  destruct (collect_incl _ _ _ (j, l2) Hnew (enumerate_nth _ _ _ Hj))
    as (r3 & Hr3 & Hincl3).
  apply Hincl3.
  fold (is_positive_equality EQUALITY_SYMBOL_ID l2) in Hr3.
  rewrite Hpos in Hr3.
  rewrite (all_paramodulants_from_clause_attempts _ _ _ _ s t Hpos Ea Hne)
    in Hr3.
  match type of Hr3 with
  | (forwards <- ?F ;; _) = _ => destruct F as [fw |]; [| discriminate]
  end.
  cbn [bind] in Hr3. injection Hr3 as <-.
  apply in_or_app. right.
  exact (attempts_contain _ _ _ _ _ _ _ _ _ Huv Hk Hp).
Qed.

End Exhaustive.

Lemma all_possible_factors_exhaustive_witness :
  exists res,
    @all_possible_factors first_seen_order doctest_given_clause = Ret res
    /\ In (mkClause
             [mkLiteral false (MkPredicate 2 []);
              mkLiteral false (MkPredicate 1 [MkFunction 0 []])]
             None (Some [Some "one"%string]) (Some "factoring"%string))
          res.
Proof.
  eexists. split; [reflexivity |].
  apply (@all_possible_factors_exhaustive first_seen_order
           doctest_given_clause _ 0%nat 1%nat
           (mkLiteral false (MkPredicate 1 [MkFunction 0 []]))
           (mkLiteral false (MkPredicate 1 [MkVariable 0]))
           (Clause_of
              [mkLiteral false (MkPredicate 2 []);
               mkLiteral false (MkPredicate 1 [MkFunction 0 []])]));
    [reflexivity | lia | reflexivity | reflexivity | reflexivity].
Defined.

Lemma processed_equation_rewrites_given_witness :
  exists res,
    @all_paramodulants_from_list first_seen_order 0
      [example_one 0 0 1 0] (example_two 0 1 2)
    = Ret res
    /\ In (mkClause
             [example_equality 0 2;
              mkLiteral false (MkPredicate 0 [MkVariable 0; MkVariable 0])]
             None (Some [Some "one"%string; Some "two"%string])
             (Some "paramodulation"%string))
          res.
Proof.
  eexists. split; [reflexivity |].
  apply (@processed_equation_rewrites_given first_seen_order 0
           [example_one 0 0 1 0] (example_two 0 1 2) _
           (example_one 0 0 1 0) 0%nat (example_equality 0 1)
           0%nat (example_equality 1 2)
           (MkFunction 0 []) (MkFunction 1 [])
           (MkFunction 1 []) (MkFunction 0 []) 1%nat
           (Clause_of
              [example_equality 0 2;
               mkLiteral false
                 (MkPredicate 0 [MkVariable 0; MkVariable 0])]));
    try reflexivity.
  - now left.
  - discriminate.
  - now right.
  - cbn. lia.
Defined.

Lemma given_equation_rewrites_processed_witness :
  exists res,
    @all_paramodulants_from_list first_seen_order 0
      [example_one 0 0 1 0] (example_two 0 1 2)
    = Ret res
    /\ In (mkClause [example_equality 2 1; example_equality 0 1]
             None (Some [Some "one"%string; Some "two"%string])
             (Some "paramodulation"%string))
          res.
Proof.
  eexists. split; [reflexivity |].
  apply (@given_equation_rewrites_processed first_seen_order 0
           [example_one 0 0 1 0] (example_two 0 1 2) _
           (example_one 0 0 1 0) 1%nat
           (mkLiteral false (MkPredicate 0 [MkVariable 0; MkVariable 0]))
           0%nat (example_equality 1 2)
           (MkFunction 1 []) (MkFunction 2 [])
           (MkFunction 1 []) (MkFunction 2 []) 1%nat
           (Clause_of [example_equality 2 1; example_equality 0 1]));
    try reflexivity.
  - now left.
  - discriminate.
  - now left.
  - cbn. lia.
Defined.

(** ** Nothing is returned that the rules do not give *)

Lemma skip_failed_attempt_In x r c :
  skip_failed_attempt x = Ret r -> In c r -> x = Ret c.
Proof.
  destruct x as [c0 | e]; cbn.
  - intros [= <-] [<- | []]. reflexivity.
  - destruct e; try discriminate; intros [= <-] [].
Qed.

Section OnlyInferences.
Context {order : SetOrder}.
Variable EQUALITY_SYMBOL_ID : Z.

(** X29. Every clause returned by [all_possible_factors] is, up to its
    provenance, what [factoring] returns on two literals at positions
    [i < j] of the given clause, with the other literals as the clause. *)
Theorem factors_are_factorings given_clause res c :
  all_possible_factors given_clause = Ret res ->
  In c res ->
  exists i j li lj f,
    (i < j)%nat
    /\ nth_error (literals given_clause) i = Some li
    /\ nth_error (literals given_clause) j = Some lj
    /\ factoring
         (Clause_of
            (firstn i (literals given_clause)
             ++ firstn (j - S i) (skipn (S i) (literals given_clause))
             ++ skipn (S j) (literals given_clause)))
         li lj
       = Ret f
    /\ c = mkClause (literals f) None (Some [label given_clause])
             (Some "factoring"%string).
Proof.
  unfold all_possible_factors.
  destruct (possible_factors given_clause) as [factors |] eqn:Ef;
    [| discriminate].
  cbn [bind]. intros [= <-] Hin. apply in_map_iff in Hin.
  destruct Hin as (factor & <- & Hin).
  unfold possible_factors in Ef.
  destruct (collect_In _ _ _ _ Ef Hin) as ([i l1] & r & Hi & Hr & Hf).
  destruct (collect_In _ _ _ _ Hr Hf) as (j & r' & Hj & Hr' & Hf').
  apply enumerate_In in Hi. apply in_seq in Hj.
  destruct (nth_error (literals given_clause) j) as [l2 |] eqn:Ej;
    [| discriminate].
  destruct (negb (negated l1) && negb (negated l2));
    [| injection Hr' as <-; destruct Hf'].
  exists i, j, l1, l2, factor. repeat split; try assumption; try lia.
  match type of Hr' with
  | skip_non_unifiable ?x = _ => destruct x as [f | e]
  end.
  - cbn in Hr'. injection Hr' as <-. destruct Hf' as [<- | []]. reflexivity.
  - destruct e; cbn in Hr'; try discriminate.
    injection Hr' as <-. destruct Hf'.
Qed.

(** What is in the result of [all_paramodulants_from_clause]. *)
Lemma all_paramodulants_from_clause_In
  clause_one literal_one clause_two literal_two res c :
  all_paramodulants_from_clause EQUALITY_SYMBOL_ID
    clause_one literal_one clause_two literal_two
  = Ret res ->
  In c res ->
  exists u v k,
    is_positive_equality EQUALITY_SYMBOL_ID literal_one = true
    /\ equation_sides literal_one u v
    /\ (1 <= k < proposition_length (atom literal_two))%nat
    /\ paramodulation clause_one (u, v) clause_two literal_two k = Ret c.
Proof.
  unfold all_paramodulants_from_clause, not_an_equality,
    is_positive_equality, equation_sides, argument_at.
  destruct (Z.eqb (index_of (atom literal_one)) EQUALITY_SYMBOL_ID);
    cbn [negb bind]; [| discriminate].
  destruct (negated literal_one); cbn [negb bind andb]; [discriminate |].
  destruct (arguments_of (atom literal_one)) as [args |] eqn:Ea;
    cbn [bind]; [| discriminate].
  destruct args as [| s [| t [| w args]]]; cbn; try discriminate.
  destruct (prop_eqb s t); [intros [= <-] [] |].
  intros H Hin.
  destruct (collect_In _ _ _ _ H Hin) as (k & r & Hk & Hr & Hc).
  apply in_seq in Hk.
  unfold equality_symmetry_paramodulation, argument_at in Hr.
  rewrite Ea in Hr. cbn [nth_error bind] in Hr.
  destruct (skip_failed_attempt
              (paramodulation clause_one (s, t) clause_two literal_two k))
    as [r1 |] eqn:E1; [| cbn in Hr; discriminate Hr].
  cbn [bind] in Hr.
  destruct (skip_failed_attempt
              (paramodulation clause_one (t, s) clause_two literal_two k))
    as [r2 |] eqn:E2; [| cbn in Hr; discriminate Hr].
  cbn [bind] in Hr. injection Hr as <-.
  apply in_app_or in Hc. destruct Hc as [Hc | Hc].
  - exists s, t, k. repeat split; auto; try lia.
    exact (skip_failed_attempt_In _ _ _ E1 Hc).
  - exists t, s, k. repeat split; auto; try lia.
    exact (skip_failed_attempt_In _ _ _ E2 Hc).
Qed.

(** C9. Every clause returned by [all_possible_factors] carries the rule
    name "factoring" and, as parents, the one-element sequence of the given
    clause's label. Every clause returned by [all_paramodulants_from_list]
    carries the rule name "paramodulation" and, as parents, the label of
    the processed clause it comes from followed by the label of the given
    clause: its literals are those of a clause that [paramodulation]
    returns for a literal of that processed clause and a literal of the
    given clause, in one of the two directions. *)
Theorem provenance_tagging :
  (forall given_clause res c,
      all_possible_factors given_clause = Ret res ->
      In c res ->
      inference_rule c = Some "factoring"%string
      /\ inference_parents c = Some [label given_clause])
  /\ (forall clauses given_clause res c,
         all_paramodulants_from_list EQUALITY_SYMBOL_ID clauses given_clause
         = Ret res ->
         In c res ->
         inference_rule c = Some "paramodulation"%string
         /\ exists other i l1 j l2 u v k c',
             In other clauses
             /\ inference_parents c
                = Some [label other; label given_clause]
             /\ literals c = literals c'
             /\ nth_error (literals other) i = Some l1
             /\ nth_error (literals given_clause) j = Some l2
             /\ ((is_positive_equality EQUALITY_SYMBOL_ID l1 = true
                  /\ equation_sides l1 u v
                  /\ (1 <= k < proposition_length (atom l2))%nat
                  /\ paramodulation
                       (Clause_of (firstn i (literals other)
                                   ++ skipn (S i) (literals other)))
                       (u, v)
                       (Clause_of (firstn j (literals given_clause)
                                   ++ skipn (S j) (literals given_clause)))
                       l2 k
                     = Ret c')
                 \/ (is_positive_equality EQUALITY_SYMBOL_ID l2 = true
                     /\ equation_sides l2 u v
                     /\ (1 <= k < proposition_length (atom l1))%nat
                     /\ paramodulation
                          (Clause_of
                             (firstn j (literals given_clause)
                              ++ skipn (S j) (literals given_clause)))
                          (u, v)
                          (Clause_of (firstn i (literals other)
                                      ++ skipn (S i) (literals other)))
                          l1 k
                        = Ret c'))).
Proof.
  split.
  - intros g res c. unfold all_possible_factors.
    destruct (possible_factors g) as [factors |]; [| discriminate].
    cbn [bind]. intros [= <-] Hin. apply in_map_iff in Hin.
    destruct Hin as (factor & <- & _). cbn. auto.
  - intros clauses g res c. unfold all_paramodulants_from_list.
    intros H Hin.
    destruct (collect_In _ _ _ _ H Hin) as (other & r1 & Hother & Hr1 & Hc1).
    destruct (collect_In _ _ _ _ Hr1 Hc1) as ([i l1] & r2 & Hi & Hr2 & Hc2).
    destruct (get_new_paramodulants _ _ _ _) as [new |] eqn:Hnew;
      [| discriminate].
    cbn [bind] in Hr2. injection Hr2 as <-. apply in_map_iff in Hc2.
    destruct Hc2 as (c' & <- & Hc').
    cbn [inference_rule inference_parents literals].
    split; [reflexivity |].
    unfold get_new_paramodulants in Hnew.
    destruct (collect_In _ _ _ _ Hnew Hc') as ([j l2] & r3 & Hj & Hr3 & Hc3).
    apply enumerate_In in Hi, Hj.
    match type of Hr3 with
    | (forwards <- ?F ;; backwards <- ?B ;; _) = _ =>
        destruct F as [fw |] eqn:EF; [| discriminate];
        destruct B as [bw |] eqn:EB; [| discriminate]
    end.
    cbn [bind] in Hr3. injection Hr3 as <-.
    apply in_app_or in Hc3. destruct Hc3 as [Hc3 | Hc3].
    + destruct (negb (negated l1)
                && Z.eqb (index_of (atom l1)) EQUALITY_SYMBOL_ID);
        [| injection EF as <-; destruct Hc3].
      destruct (all_paramodulants_from_clause_In _ _ _ _ _ _ EF Hc3)
        as (u & v & k & Hpos & Hs & Hk & Hp).
      exists other, i, l1, j, l2, u, v, k, c'.
      repeat split; try assumption. left. repeat split; try assumption; lia.
    + destruct (negb (negated l2)
                && Z.eqb (index_of (atom l2)) EQUALITY_SYMBOL_ID);
        [| injection EB as <-; destruct Hc3].
      destruct (all_paramodulants_from_clause_In _ _ _ _ _ _ EB Hc3)
        as (u & v & k & Hpos & Hs & Hk & Hp).
      exists other, i, l1, j, l2, u, v, k, c'.
      repeat split; try assumption. right. repeat split; try assumption; lia.
Qed.

(** X30. Every clause returned by [all_paramodulants_from_list] is, up to
    its provenance, what [paramodulation] returns for a literal of a
    processed clause and a literal of the given clause, one of which is a
    positive literal of the equality symbol whose two arguments, in one
    order or the other, are the equation used, at a position other than
    the root of the atom of the other one. *)
Theorem paramodulants_are_paramodulations clauses given_clause res c :
  all_paramodulants_from_list EQUALITY_SYMBOL_ID clauses given_clause
  = Ret res ->
  In c res ->
  exists other i l1 j l2 u v k c',
    In other clauses
    /\ nth_error (literals other) i = Some l1
    /\ nth_error (literals given_clause) j = Some l2
    /\ c = mkClause (literals c') None
             (Some [label other; label given_clause])
             (Some "paramodulation"%string)
    /\ ((is_positive_equality EQUALITY_SYMBOL_ID l1 = true
         /\ equation_sides l1 u v
         /\ (1 <= k < proposition_length (atom l2))%nat
         /\ paramodulation
              (Clause_of (firstn i (literals other)
                          ++ skipn (S i) (literals other)))
              (u, v)
              (Clause_of (firstn j (literals given_clause)
                          ++ skipn (S j) (literals given_clause)))
              l2 k
            = Ret c')
        \/ (is_positive_equality EQUALITY_SYMBOL_ID l2 = true
            /\ equation_sides l2 u v
            /\ (1 <= k < proposition_length (atom l1))%nat
            /\ paramodulation
                 (Clause_of (firstn j (literals given_clause)
                             ++ skipn (S j) (literals given_clause)))
                 (u, v)
                 (Clause_of (firstn i (literals other)
                             ++ skipn (S i) (literals other)))
                 l1 k
               = Ret c')).
Proof.
  unfold all_paramodulants_from_list. intros H Hin.
  destruct (collect_In _ _ _ _ H Hin) as (other & r1 & Hother & Hr1 & Hc1).
  destruct (collect_In _ _ _ _ Hr1 Hc1) as ([i l1] & r2 & Hi & Hr2 & Hc2).
  destruct (get_new_paramodulants _ _ _ _) as [new |] eqn:Hnew;
    [| discriminate].
  cbn [bind] in Hr2. injection Hr2 as <-. apply in_map_iff in Hc2.
  destruct Hc2 as (c' & <- & Hc').
  unfold get_new_paramodulants in Hnew.
  destruct (collect_In _ _ _ _ Hnew Hc') as ([j l2] & r3 & Hj & Hr3 & Hc3).
  apply enumerate_In in Hi, Hj.
  match type of Hr3 with
  | (forwards <- ?F ;; backwards <- ?B ;; _) = _ =>
      destruct F as [fw |] eqn:EF; [| discriminate];
      destruct B as [bw |] eqn:EB; [| discriminate]
  end.
  cbn [bind] in Hr3. injection Hr3 as <-.
  apply in_app_or in Hc3. destruct Hc3 as [Hc3 | Hc3].
  - destruct (negb (negated l1)
              && Z.eqb (index_of (atom l1)) EQUALITY_SYMBOL_ID);
      [| injection EF as <-; destruct Hc3].
    destruct (all_paramodulants_from_clause_In _ _ _ _ _ _ EF Hc3)
      as (u & v & k & Hpos & Hs & Hk & Hp).
    exists other, i, l1, j, l2, u, v, k, c'.
    repeat split; try assumption. left. repeat split; try assumption; lia.
  - destruct (negb (negated l2)
              && Z.eqb (index_of (atom l2)) EQUALITY_SYMBOL_ID);
      [| injection EB as <-; destruct Hc3].
    destruct (all_paramodulants_from_clause_In _ _ _ _ _ _ EB Hc3)
      as (u & v & k & Hpos & Hs & Hk & Hp).
    exists other, i, l1, j, l2, u, v, k, c'.
    repeat split; try assumption. right. repeat split; try assumption; lia.
Qed.

End OnlyInferences.

Lemma factors_are_factorings_witness :
  exists res c,
    @all_possible_factors first_seen_order doctest_given_clause = Ret res
    /\ In c res
    /\ exists i j li lj f,
        (i < j)%nat
        /\ nth_error (literals doctest_given_clause) i = Some li
        /\ nth_error (literals doctest_given_clause) j = Some lj
        /\ @factoring first_seen_order
             (Clause_of
                (firstn i (literals doctest_given_clause)
                 ++ firstn (j - S i)
                      (skipn (S i) (literals doctest_given_clause))
                 ++ skipn (S j) (literals doctest_given_clause)))
             li lj
           = Ret f
        /\ c = mkClause (literals f) None
                 (Some [label doctest_given_clause])
                 (Some "factoring"%string).
Proof.
  eexists. eexists.
  assert (H : @all_possible_factors first_seen_order doctest_given_clause
              = Ret [mkClause
                       [mkLiteral false (MkPredicate 2 []);
                        mkLiteral false (MkPredicate 1 [MkFunction 0 []])]
                       None (Some [Some "one"%string])
                       (Some "factoring"%string)])
    by reflexivity.
  split; [exact H |]. split; [left; reflexivity |].
  apply (@factors_are_factorings first_seen_order _ _ _ H).
  left. reflexivity.
Defined.

Lemma paramodulants_are_paramodulations_witness :
  exists res c,
    @all_paramodulants_from_list first_seen_order 0
      [example_one 0 0 1 0] (example_two 0 1 2)
    = Ret res
    /\ In c res
    /\ exists other i l1 j l2 u v k c',
        In other [example_one 0 0 1 0]
        /\ nth_error (literals other) i = Some l1
        /\ nth_error (literals (example_two 0 1 2)) j = Some l2
        /\ c = mkClause (literals c') None
                 (Some [label other; label (example_two 0 1 2)])
                 (Some "paramodulation"%string)
        /\ ((is_positive_equality 0 l1 = true
             /\ equation_sides l1 u v
             /\ (1 <= k < proposition_length (atom l2))%nat
             /\ @paramodulation first_seen_order
                  (Clause_of (firstn i (literals other)
                              ++ skipn (S i) (literals other)))
                  (u, v)
                  (Clause_of
                     (firstn j (literals (example_two 0 1 2))
                      ++ skipn (S j) (literals (example_two 0 1 2))))
                  l2 k
                = Ret c')
            \/ (is_positive_equality 0 l2 = true
                /\ equation_sides l2 u v
                /\ (1 <= k < proposition_length (atom l1))%nat
                /\ @paramodulation first_seen_order
                     (Clause_of
                        (firstn j (literals (example_two 0 1 2))
                         ++ skipn (S j) (literals (example_two 0 1 2))))
                     (u, v)
                     (Clause_of (firstn i (literals other)
                                 ++ skipn (S i) (literals other)))
                     l1 k
                   = Ret c')).
Proof.
  destruct (@all_paramodulants_from_list first_seen_order 0
              [example_one 0 0 1 0] (example_two 0 1 2))
    as [[| c res] | e] eqn:H;
    try (vm_compute in H; discriminate H).
  exists (c :: res), c. split; [reflexivity |].
  split; [left; reflexivity |].
  apply (@paramodulants_are_paramodulations first_seen_order 0 _ _ _ _ H).
  left. reflexivity.
Defined.

(** The clause [b = d] that the processed clause "three" gives with the
    given clause "two". *)
Lemma provenance_tagging_witness :
  (exists res c,
      @all_possible_factors first_seen_order doctest_given_clause = Ret res
      /\ In c res
      /\ inference_rule c = Some "factoring"%string
      /\ inference_parents c = Some [Some "one"%string])
  /\ (exists res,
         @all_paramodulants_from_list first_seen_order 0
           [example_one 0 0 1 0; example_processed_three] (example_two 0 1 2)
         = Ret res
         /\ In (mkClause [example_equality 1 3] None
                  (Some [Some "three"%string; Some "two"%string])
                  (Some "paramodulation"%string)) res
         /\ exists other,
             In other [example_one 0 0 1 0; example_processed_three]
             /\ Some [Some "three"%string; Some "two"%string]
                = Some [label other; label (example_two 0 1 2)]).
Proof.
  split.
  - eexists. eexists.
    assert (H : @all_possible_factors first_seen_order doctest_given_clause
                = Ret [mkClause
                         [mkLiteral false (MkPredicate 2 []);
                          mkLiteral false (MkPredicate 1 [MkFunction 0 []])]
                         None (Some [Some "one"%string])
                         (Some "factoring"%string)])
      by reflexivity.
    split; [exact H |]. split; [left; reflexivity |].
    apply (proj1 (@provenance_tagging first_seen_order 0) _ _ _ H).
    left. reflexivity.
  - destruct (@all_paramodulants_from_list first_seen_order 0
                [example_one 0 0 1 0; example_processed_three]
                (example_two 0 1 2)) as [res | e] eqn:H;
      [| vm_compute in H; discriminate H].
    assert (Hin : In (mkClause [example_equality 1 3] None
                        (Some [Some "three"%string; Some "two"%string])
                        (Some "paramodulation"%string)) res).
    { vm_compute in H. injection H as <-.
      repeat first [left; reflexivity | right]. }
    exists res. split; [reflexivity |]. split; [exact Hin |].
    destruct (proj2 (@provenance_tagging first_seen_order 0) _ _ _ _ H Hin)
      as (_ & other & _ & _ & _ & _ & _ & _ & _ & _ & Hother & Hparents & _).
    exists other. split; [exact Hother | exact Hparents].
Defined.
